(** * furry-radar: the two-phase follow-graph crawler and its store

    A shallow embedding of [src/storage.py] (class [FurryNetworkDB]),
    [src/bluesky_api.py] (class [BlueskyAPI]) and [src/main.py]
    ([phase1_mutuals_graph], [phase2_expand_graph]).

    Conventions of the embedding.
    - A DID is a [string].  The [users] table (PRIMARY KEY did) is a finite
      map from DIDs to rows; the [follows] table (PRIMARY KEY
      (follower_did, following_did)) is a finite map from ordered pairs.
    - Python [None] / SQL NULL is [None]; an optional argument or nullable
      column is an [option].
    - Every store method commits before it returns, so a method is a
      function from stores to stores; a Python exception that leaves the
      method is [Raised], carrying the store as committed so far.
    - The [added_at] timestamp, printing and [time.sleep] are not modelled.
      An upsert (INSERT OR REPLACE) sets [added_at] anew; statements about
      rows are about the other columns.
    - A count is an unbounded integer.  SQLite holds signed 64-bit integers
      and the sqlite3 module raises OverflowError for an [int] outside that
      range; this exception is not part of [add_user] below.  Statements
      that an upsert completes, or about the row it writes, assume counts
      in that range ([count_fits], [counts_set]). *)

From Stdlib Require Import ZArith.
From stdpp Require Import gmap strings list fin_maps fin_sets.

Open Scope string_scope.
Open Scope list_scope.
Open Scope Z_scope.

Set Warnings "-clear-no-such-hyp".

(** ** storage.py: the tables *)

Record UserRow := {
  u_handle : string;
  u_display_name : option string;
  u_followers_count : option Z;
  u_follows_count : option Z;
  u_description : option string;
  u_crawled : bool;
  u_is_mutual_core : bool
}.

Record FollowRow := {
  f_follower_handle : string;
  f_following_handle : string;
  f_is_mutual : bool
}.

Record DB := {
  users : gmap string UserRow;
  follows : gmap (string * string) FollowRow
}.

Definition empty_db : DB := {| users := ∅; follows := ∅ |}.

(** Outcome of a sequence of store calls: it ran to the end, or a Python
    exception propagated out of it.  Both carry the committed store. *)
Inductive exec :=
  | Fine (db : DB)
  | Raised (db : DB).

Definition store_of (e : exec) : DB :=
  match e with Fine db => db | Raised db => db end.

Definition and_then (e : exec) (k : DB → exec) : exec :=
  match e with Fine db => k db | Raised db => Raised db end.

(** ** storage.py: add_user *)

(** [if followers_count == 0 and existing_followers > 0: followers_count =
    existing_followers].  The comparison [None > 0] raises TypeError; it is
    reached only when the incoming count equals 0 (short-circuit [and]).
    The result is [None] for the exception, else the count to store. *)
Definition keep_count (incoming existing : option Z) : option (option Z) :=
  match incoming with
  | Some 0 =>
      match existing with
      | None => None
      | Some e => Some (if 0 <? e then Some e else Some 0)
      end
  | _ => Some incoming
  end.

(** [if description is None and existing_desc is not None: description =
    existing_desc]; the same for [display_name]. *)
Definition keep_text (incoming existing : option string) : option string :=
  match incoming, existing with
  | None, Some e => Some e
  | _, _ => incoming
  end.

Definition add_user (did handle : string) (display_name : option string)
    (followers_count follows_count : option Z) (description : option string)
    (db : DB) : exec :=
  match users db !! did with
  | None =>
      Fine {| users := <[did := {| u_handle := handle;
                                    u_display_name := display_name;
                                    u_followers_count := followers_count;
                                    u_follows_count := follows_count;
                                    u_description := description;
                                    u_crawled := false;
                                    u_is_mutual_core := false |}]> (users db);
              follows := follows db |}
  | Some ex =>
      match keep_count followers_count (u_followers_count ex) with
      | None => Raised db
      | Some followers_count' =>
          match keep_count follows_count (u_follows_count ex) with
          | None => Raised db
          | Some follows_count' =>
              Fine {| users :=
                        <[did := {| u_handle := handle;
                                    u_display_name :=
                                      keep_text display_name (u_display_name ex);
                                    u_followers_count := followers_count';
                                    u_follows_count := follows_count';
                                    u_description :=
                                      keep_text description (u_description ex);
                                    u_crawled := u_crawled ex;
                                    u_is_mutual_core := u_is_mutual_core ex |}]>
                          (users db);
                      follows := follows db |}
          end
      end
  end.

(** The call shape used for connections: [add_user(did=, handle=,
    display_name=)], the remaining parameters at their defaults
    [followers_count=0, follows_count=0, description=None]. *)
Definition add_user_stub (did handle : string) (display_name : option string)
    (db : DB) : exec :=
  add_user did handle display_name (Some 0) (Some 0) None db.

(** The range of an SQLite INTEGER: a signed 64-bit integer.  The sqlite3
    module raises OverflowError when it is given an [int] outside of it. *)
Definition int64 (n : Z) : Prop :=
  -9223372036854775808 ≤ n ≤ 9223372036854775807.

(** A count argument that [add_user] can hand to SQLite: [None] (bound as
    NULL) or an integer in range. *)
Definition count_fits (c : option Z) : Prop :=
  match c with
  | Some n => int64 n
  | None => True
  end.


(** ** storage.py: add_follow, the flag setters and the queries *)

(** INSERT OR IGNORE: a row with the same primary key makes the insert a
    no-op. *)
Definition add_follow (follower_did follower_handle following_did
    following_handle : string) (is_mutual : bool) (db : DB) : DB :=
  match follows db !! (follower_did, following_did) with
  | Some _ => db
  | None =>
      {| users := users db;
         follows := <[(follower_did, following_did) :=
                        {| f_follower_handle := follower_handle;
                           f_following_handle := following_handle;
                           f_is_mutual := is_mutual |}]> (follows db) |}
  end.

Definition set_crawled (r : UserRow) : UserRow :=
  {| u_handle := u_handle r; u_display_name := u_display_name r;
     u_followers_count := u_followers_count r;
     u_follows_count := u_follows_count r;
     u_description := u_description r;
     u_crawled := true; u_is_mutual_core := u_is_mutual_core r |}.

Definition set_mutual_core (r : UserRow) : UserRow :=
  {| u_handle := u_handle r; u_display_name := u_display_name r;
     u_followers_count := u_followers_count r;
     u_follows_count := u_follows_count r;
     u_description := u_description r;
     u_crawled := u_crawled r; u_is_mutual_core := true |}.

(** UPDATE users SET crawled = 1 WHERE did = ? *)
Definition mark_as_crawled (did : string) (db : DB) : DB :=
  {| users := alter set_crawled did (users db); follows := follows db |}.

(** UPDATE users SET is_mutual_core = 1 WHERE did = ? *)
Definition mark_as_mutual_core (did : string) (db : DB) : DB :=
  {| users := alter set_mutual_core did (users db); follows := follows db |}.

(** [return result and result[0] == 1]: [None] when no row matches (the
    value of [result]), else the boolean [result[0] == 1]. *)
Definition is_crawled (db : DB) (did : string) : option bool :=
  match users db !! did with
  | None => None
  | Some r => Some (u_crawled r)
  end.

(** Python truthiness of the value returned by [is_crawled]. *)
Definition truthy (v : option bool) : bool :=
  match v with Some true => true | _ => false end.

Definition user_exists (db : DB) (did : string) : bool :=
  match users db !! did with Some _ => true | None => false end.

(** SELECT did, handle FROM users WHERE crawled = 0 (no LIMIT).  The row
    order is whatever the table scan yields; here the order of
    [map_to_list]. *)
Definition get_uncrawled_users (db : DB) : list (string * string) :=
  (λ p, (p.1, u_handle p.2))
    <$> List.filter (λ p : string * UserRow, negb (u_crawled p.2))
          (map_to_list (users db)).

Definition is_core (db : DB) (did : string) : bool :=
  match users db !! did with
  | Some r => u_is_mutual_core r
  | None => false
  end.

(** First branch of the UNION: follower_did of the edges into [did] whose
    follower joins a users row with is_mutual_core = 1. *)
Definition core_followers (db : DB) (did : string) : gset string :=
  list_to_set
    (omap (λ e : string * string * FollowRow,
             if bool_decide (e.1.2 = did) && is_core db e.1.1
             then Some e.1.1 else None)
          (map_to_list (follows db))).

(** Second branch: following_did of the edges out of [did] whose target
    joins a users row with is_mutual_core = 1. *)
Definition core_following (db : DB) (did : string) : gset string :=
  list_to_set
    (omap (λ e : string * string * FollowRow,
             if bool_decide (e.1.1 = did) && is_core db e.1.2
             then Some e.1.2 else None)
          (map_to_list (follows db))).

(** SELECT COUNT(DISTINCT connected_did) FROM (... UNION ...) *)
Definition get_mutual_core_connection_count (db : DB) (did : string) : Z :=
  Z.of_nat (size (core_followers db did ∪ core_following db did)).

(** The spec's wording of the same number: the distinct accounts flagged
    core-member that are linked to [did] by a follow edge in either
    direction. *)
Definition core_links (db : DB) (did : string) : gset string :=
  filter (λ x, is_core db x = true ∧
               (is_Some (follows db !! (x, did)) ∨
                is_Some (follows db !! (did, x))))
         (dom (users db)).

(** ** bluesky_api.py *)

Record Profile := {
  p_did : string;
  p_handle : string;
  p_display_name : option string;
  p_followers_count : option Z;
  p_follows_count : option Z;
  p_description : option string
}.

(** An entry of a follows / followers listing. *)
Record Conn := {
  c_did : string;
  c_handle : string;
  c_display_name : option string
}.

(** What the remote answers along one pagination walk, starting from the
    request without cursor: the request raises, or it returns a page with a
    falsy [resp.cursor], or a page with a cursor together with the answer to
    the request carrying that cursor.  A walk is finite: a remote that hands
    out cursors forever makes [get_all_follows] loop forever and has no
    representation here. *)
Inductive Pages :=
  | PageError
  | PageLast (items : list Conn)
  | PageMore (items : list Conn) (next : Pages).

(** The remote directory as seen during one run: a fixed snapshot, the same
    request gets the same answer.  [get_profile] is the method of that name
    ([None] after a caught exception); the two other fields are the raw
    endpoints [client.app.bsky.graph.get_follows] / [get_followers]. *)
Record BlueskyAPI := {
  get_profile : string → option Profile;
  graph_get_follows : string → Pages;
  graph_get_followers : string → Pages
}.

(** The [while True] loop of [get_all_follows] / [get_all_followers]:
    [extend] with each page; [break] on a falsy cursor, and also in the
    [except] branch, which keeps what was accumulated. *)
Fixpoint paginate (p : Pages) (acc : list Conn) : list Conn :=
  match p with
  | PageError => acc
  | PageLast items => acc ++ items
  | PageMore items next => paginate next (acc ++ items)
  end.

Definition get_all_follows (api : BlueskyAPI) (actor : string) : list Conn :=
  paginate (graph_get_follows api actor) [].

Definition get_all_followers (api : BlueskyAPI) (actor : string) : list Conn :=
  paginate (graph_get_followers api actor) [].


Record Mutuals := {
  r_follows : list Conn;
  r_followers : list Conn;
  r_mutuals : gset string
}.

Definition find_mutuals (api : BlueskyAPI) (actor : string) : Mutuals :=
  let follows := get_all_follows api actor in
  let followers := get_all_followers api actor in
  let follows_set : gset string := list_to_set (c_did <$> follows) in
  let followers_set : gset string := list_to_set (c_did <$> followers) in
  {| r_follows := follows;
     r_followers := followers;
     r_mutuals := follows_set ∩ followers_set |}.

(** ** main.py: what both phases share *)

(** Observation of a run, newest event first.  It is not program state:
    no definition below reads it.  [EvEnqueue did src db] stands for one
    [to_process.append(did)], executed while crawling [src] ([None] for
    the initial queue of Phase 2) with the store being [db];
    [EvCrawl did] stands for one [db.mark_as_crawled(did)]. *)
Inductive event :=
  | EvEnqueue (did : string) (src : option string) (store : DB)
  | EvCrawl (did : string).

(** One pass through a [while] body: [continue] or falling off the end
    ([Next]), leaving the loop by its condition or by [break] ([Stop]), or
    an exception leaving the function ([Abort]). *)
Inductive step (S : Type) :=
  | Next (s : S)
  | Stop (s : S)
  | Abort (s : S).
Arguments Next {S} s.
Arguments Stop {S} s.
Arguments Abort {S} s.

(** A run observed for at most [fuel] passes. *)
Inductive run (S : Type) :=
  | Finished (s : S)
  | Crashed (s : S)
  | Running (s : S).
Arguments Finished {S} s.
Arguments Crashed {S} s.
Arguments Running {S} s.

Definition state_of {S : Type} (r : run S) : S :=
  match r with Finished s => s | Crashed s => s | Running s => s end.

Definition step_state {S : Type} (r : step S) : S :=
  match r with Next s => s | Stop s => s | Abort s => s end.

Fixpoint loop {S : Type} (body : S → step S) (fuel : nat) (s : S) : run S :=
  match fuel with
  | O => Running s
  | Datatypes.S fuel' =>
      match body s with
      | Next s' => loop body fuel' s'
      | Stop s' => Finished s'
      | Abort s' => Crashed s'
      end
  end.

(** [max_users and n >= max_users]: [None] and [0] are falsy. *)
Definition limit_reached (max_users : option Z) (n : Z) : bool :=
  match max_users with
  | None => false
  | Some m => negb (m =? 0) && (m <=? n)
  end.

(** ** main.py: phase1_mutuals_graph *)

Record Phase1 := {
  p1_db : DB;
  p1_to_process : list string;
  p1_processed : gset string;
  p1_trace : list event
}.

(** [for follow in result['follows']]: upsert the account, then record
    the edge current -> follow. *)
Fixpoint phase1_add_follows (current_did handle : string) (mutuals : gset string)
    (follows : list Conn) (db : DB) : exec :=
  match follows with
  | [] => Fine db
  | follow :: rest =>
      and_then
        (add_user_stub (c_did follow) (c_handle follow) (c_display_name follow) db)
        (λ db1,
           phase1_add_follows current_did handle mutuals rest
             (add_follow current_did handle (c_did follow) (c_handle follow)
                (bool_decide (c_did follow ∈ mutuals)) db1))
  end.

(** [for follower in result['followers']]: upsert the account; record the
    edge follower -> current unless the follower is in [follows_dids]. *)
Fixpoint phase1_add_followers (current_did handle : string)
    (follows_dids : gset string) (followers : list Conn) (db : DB) : exec :=
  match followers with
  | [] => Fine db
  | follower :: rest =>
      and_then
        (add_user_stub (c_did follower) (c_handle follower)
           (c_display_name follower) db)
        (λ db1,
           phase1_add_followers current_did handle follows_dids rest
             (if bool_decide (c_did follower ∉ follows_dids)
              then add_follow (c_did follower) (c_handle follower)
                     current_did handle false db1
              else db1))
  end.

(** [for mutual_did in result['mutuals']].  The store is not written in
    this loop and [processed] does not change in it. *)
Fixpoint phase1_enqueue (db : DB) (processed : gset string) (current_did : string)
    (mutuals : list string) (to_process : list string) (trace : list event)
    : list string * list event :=
  match mutuals with
  | [] => (to_process, trace)
  | mutual_did :: rest =>
      if negb (bool_decide (mutual_did ∈ processed))
         && negb (truthy (is_crawled db mutual_did))
      then phase1_enqueue db processed current_did rest
             (to_process ++ [mutual_did])
             (EvEnqueue mutual_did (Some current_did) db :: trace)
      else phase1_enqueue db processed current_did rest to_process trace
  end.

(** One pass through the [while to_process:] body.  A Python set is
    iterated in an order of its own; [elements] stands for it. *)
Definition phase1_step (api : BlueskyAPI) (max_users : option Z) (s : Phase1)
    : step Phase1 :=
  match p1_to_process s with
  | [] => Stop s
  | current_did :: rest =>
      if limit_reached max_users (Z.of_nat (size (p1_processed s))) then Stop s
      else
        let popped db :=
          {| p1_db := db; p1_to_process := rest;
             p1_processed := p1_processed s; p1_trace := p1_trace s |} in
        if bool_decide (current_did ∈ p1_processed s)
           || truthy (is_crawled (p1_db s) current_did)
        then Next (popped (p1_db s))
        else
          match get_profile api current_did with
          | None => Next (popped (p1_db s))
          | Some profile =>
              match add_user (p_did profile) (p_handle profile)
                      (p_display_name profile) (p_followers_count profile)
                      (p_follows_count profile) (p_description profile)
                      (p1_db s) with
              | Raised db' => Abort (popped db')
              | Fine db1 =>
                  let result := find_mutuals api current_did in
                  match phase1_add_follows current_did (p_handle profile)
                          (r_mutuals result) (r_follows result) db1 with
                  | Raised db' => Abort (popped db')
                  | Fine db2 =>
                      let follows_dids : gset string :=
                        list_to_set (c_did <$> r_follows result) in
                      match phase1_add_followers current_did (p_handle profile)
                              follows_dids (r_followers result) db2 with
                      | Raised db' => Abort (popped db')
                      | Fine db3 =>
                          let qt :=
                            phase1_enqueue db3 (p1_processed s) current_did
                              (elements (r_mutuals result)) rest (p1_trace s) in
                          Next {| p1_db :=
                                    mark_as_mutual_core current_did
                                      (mark_as_crawled current_did db3);
                                  p1_to_process := qt.1;
                                  p1_processed := {[current_did]} ∪ p1_processed s;
                                  p1_trace := EvCrawl current_did :: qt.2 |}
                      end
                  end
              end
          end
  end.

Definition phase1_init (db : DB) (seed_account : string) : Phase1 :=
  {| p1_db := db; p1_to_process := [seed_account];
     p1_processed := ∅; p1_trace := [] |}.

Definition phase1_mutuals_graph (fuel : nat) (api : BlueskyAPI) (db : DB)
    (seed_account : string) (max_users : option Z) : run Phase1 :=
  loop (phase1_step api max_users) fuel (phase1_init db seed_account).

(** ** main.py: phase2_expand_graph *)

(** MIN_CONNECTIONS = 3 *)
Definition MIN_CONNECTIONS : Z := 3.

Record Phase2 := {
  p2_db : DB;
  p2_to_process : list string;
  p2_processed : gset string;
  p2_crawled_count : Z;
  p2_trace : list event
}.

(** A Python dict did -> handle, in insertion order: assigning to a key
    already present keeps its position. *)
Fixpoint dict_set (k v : string) (d : list (string * string))
    : list (string * string) :=
  match d with
  | [] => [(k, v)]
  | (k', v') :: d' =>
      if bool_decide (k' = k) then (k, v) :: d' else (k', v') :: dict_set k v d'
  end.

(** [temp_connections[f.did] = f.handle] for each entry of a listing. *)
Definition dict_add_all (l : list Conn) (d : list (string * string))
    : list (string * string) :=
  foldl (λ d f, dict_set (c_did f) (c_handle f) d) d l.

(** [for f in follows]: a stub upsert unless the account exists, then the
    edge current -> f with is_mutual=False. *)
Fixpoint phase2_add_follows (current_did handle : string) (follows : list Conn)
    (db : DB) : exec :=
  match follows with
  | [] => Fine db
  | f :: rest =>
      and_then
        (if user_exists db (c_did f) then Fine db
         else add_user_stub (c_did f) (c_handle f) (c_display_name f) db)
        (λ db1,
           phase2_add_follows current_did handle rest
             (add_follow current_did handle (c_did f) (c_handle f) false db1))
  end.

(** [for f in followers]: the same with the edge f -> current. *)
Fixpoint phase2_add_followers (current_did handle : string)
    (followers : list Conn) (db : DB) : exec :=
  match followers with
  | [] => Fine db
  | f :: rest =>
      and_then
        (if user_exists db (c_did f) then Fine db
         else add_user_stub (c_did f) (c_handle f) (c_display_name f) db)
        (λ db1,
           phase2_add_followers current_did handle rest
             (add_follow (c_did f) (c_handle f) current_did handle false db1))
  end.

(** [for conn_did, conn_handle in temp_connections.items()].  The queue
    tested by [conn_did in to_process] is the one being appended to. *)
Fixpoint phase2_scan (db : DB) (processed : gset string) (min_connections : Z)
    (current_did : string) (conns : list (string * string))
    (to_process : list string) (trace : list event)
    : list string * list event :=
  match conns with
  | [] => (to_process, trace)
  | (conn_did, _) :: rest =>
      if bool_decide (conn_did ∈ processed)
      then phase2_scan db processed min_connections current_did rest
             to_process trace
      else if bool_decide (conn_did ∈ to_process)
      then phase2_scan db processed min_connections current_did rest
             to_process trace
      else if truthy (is_crawled db conn_did)
      then phase2_scan db processed min_connections current_did rest
             to_process trace
      else if min_connections <=? get_mutual_core_connection_count db conn_did
      then phase2_scan db processed min_connections current_did rest
             (to_process ++ [conn_did])
             (EvEnqueue conn_did (Some current_did) db :: trace)
      else phase2_scan db processed min_connections current_did rest
             to_process trace
  end.

(** [for did, handle in uncrawled]: the initial queue. *)
Fixpoint phase2_initial_queue (db : DB) (min_connections : Z)
    (uncrawled : list (string * string)) (to_process : list string)
    (trace : list event) : list string * list event :=
  match uncrawled with
  | [] => (to_process, trace)
  | (did, _) :: rest =>
      if min_connections <=? get_mutual_core_connection_count db did
      then phase2_initial_queue db min_connections rest
             (to_process ++ [did]) (EvEnqueue did None db :: trace)
      else phase2_initial_queue db min_connections rest to_process trace
  end.

Definition phase2_step (api : BlueskyAPI) (min_connections : Z)
    (max_users : option Z) (s : Phase2) : step Phase2 :=
  match p2_to_process s with
  | [] => Stop s
  | current_did :: rest =>
      if limit_reached max_users (p2_crawled_count s) then Stop s
      else
        let popped db processed :=
          {| p2_db := db; p2_to_process := rest; p2_processed := processed;
             p2_crawled_count := p2_crawled_count s;
             p2_trace := p2_trace s |} in
        if bool_decide (current_did ∈ p2_processed s)
           || truthy (is_crawled (p2_db s) current_did)
        then Next (popped (p2_db s) (p2_processed s))
        else
          match get_profile api current_did with
          | None =>
              Next (popped (p2_db s) ({[current_did]} ∪ p2_processed s))
          | Some profile =>
              match add_user (p_did profile) (p_handle profile)
                      (p_display_name profile) (p_followers_count profile)
                      (p_follows_count profile) (p_description profile)
                      (p2_db s) with
              | Raised db' => Abort (popped db' (p2_processed s))
              | Fine db1 =>
                  let follows := get_all_follows api current_did in
                  let followers := get_all_followers api current_did in
                  match phase2_add_follows current_did (p_handle profile)
                          follows db1 with
                  | Raised db' => Abort (popped db' (p2_processed s))
                  | Fine db2 =>
                      match phase2_add_followers current_did (p_handle profile)
                              followers db2 with
                      | Raised db' => Abort (popped db' (p2_processed s))
                      | Fine db3 =>
                          let temp_connections :=
                            dict_add_all followers (dict_add_all follows []) in
                          let qt :=
                            phase2_scan db3 (p2_processed s) min_connections
                              current_did temp_connections rest (p2_trace s) in
                          Next {| p2_db := mark_as_crawled current_did db3;
                                  p2_to_process := qt.1;
                                  p2_processed := {[current_did]} ∪ p2_processed s;
                                  p2_crawled_count := p2_crawled_count s + 1;
                                  p2_trace := EvCrawl current_did :: qt.2 |}
                      end
                  end
              end
          end
  end.

Definition phase2_init (db : DB) (min_connections : Z) : Phase2 :=
  let qt :=
    phase2_initial_queue db min_connections (get_uncrawled_users db) [] [] in
  {| p2_db := db; p2_to_process := qt.1; p2_processed := ∅;
     p2_crawled_count := 0; p2_trace := qt.2 |}.

Definition phase2_expand_graph (fuel : nat) (api : BlueskyAPI) (db : DB)
    (min_connections : Z) (max_users : option Z) : run Phase2 :=
  loop (phase2_step api min_connections max_users) fuel
    (phase2_init db min_connections).

(** ** Measuring a run *)

(** The accounts whose crawled flag is set in [db] and was not set in
    [db0]: the flag transitions of a run from [db0] to [db]. *)
Definition newly_crawled (db0 db : DB) : gset string :=
  filter (λ d, truthy (is_crawled db d) = true ∧
               truthy (is_crawled db0 d) = false)
         (dom (users db)).

(** Whether a trace holds an enqueue event for [did]. *)
Definition enqueued_in (did : string) (trace : list event) : bool :=
  existsb (λ e, match e with
                | EvEnqueue d _ _ => String.eqb did d
                | EvCrawl _ => false
                end) trace.

(** Two stores agree on every crawled flag (as [is_crawled] tests it) and
    on every core flag. *)
Definition same_flags (db db' : DB) : Prop :=
  (∀ x, truthy (is_crawled db' x) = truthy (is_crawled db x)) ∧
  (∀ x, is_core db' x = is_core db x).


(** ** Sample networks *)

Definition conn (did : string) : Conn :=
  {| c_did := did; c_handle := did +:+ ".test"; c_display_name := None |}.

Definition profile_of (did : string) : Profile :=
  {| p_did := did; p_handle := did +:+ ".test"; p_display_name := None;
     p_followers_count := Some 2; p_follows_count := Some 3;
     p_description := Some "" |}.

(** S, A and B follow each other; all three also follow X, who follows
    nobody.  Every listing comes in one page. *)
Definition triangle_follows (actor : string) : list string :=
  if String.eqb actor "S" then ["A"; "B"; "X"]
  else if String.eqb actor "A" then ["S"; "B"; "X"]
  else if String.eqb actor "B" then ["S"; "A"; "X"]
  else [].

Definition triangle_followers (actor : string) : list string :=
  if String.eqb actor "S" then ["A"; "B"]
  else if String.eqb actor "A" then ["S"; "B"]
  else if String.eqb actor "B" then ["S"; "A"]
  else if String.eqb actor "X" then ["S"; "A"; "B"]
  else [].

Definition api_triangle : BlueskyAPI :=
  {| get_profile := λ actor, Some (profile_of actor);
     graph_get_follows := λ actor, PageLast (conn <$> triangle_follows actor);
     graph_get_followers := λ actor, PageLast (conn <$> triangle_followers actor) |}.

(** The same network while the profile of X cannot be fetched. *)
Definition api_triangle_x_down : BlueskyAPI :=
  {| get_profile := λ actor,
       if String.eqb actor "X" then None else Some (profile_of actor);
     graph_get_follows := graph_get_follows api_triangle;
     graph_get_followers := graph_get_followers api_triangle |}.

(** The same network while the profile of B cannot be fetched. *)
Definition api_triangle_b_down : BlueskyAPI :=
  {| get_profile := λ actor,
       if String.eqb actor "B" then None else Some (profile_of actor);
     graph_get_follows := graph_get_follows api_triangle;
     graph_get_followers := graph_get_followers api_triangle |}.

(** The store after an unlimited Phase 1 from S on the triangle. *)
Definition triangle_core_db : DB :=
  p1_db (state_of (phase1_mutuals_graph 10 api_triangle empty_db "S" None)).


(** The scenario of the spec: S follows A and B, and is followed by A and
    C. *)
Definition api_scenario : BlueskyAPI :=
  {| get_profile := λ actor, Some (profile_of actor);
     graph_get_follows := λ actor, PageLast [conn "A"; conn "B"];
     graph_get_followers := λ actor, PageLast [conn "A"; conn "C"] |}.

(** A store with one fully described account. *)
Definition db_ann : DB :=
  store_of (add_user "did:plc:ann" "ann.test" (Some "Ann") (Some 500) (Some 20)
              (Some "bio") empty_db).

(** ** storage.py: the remaining queries *)

(** SELECT follower_did FROM follows WHERE following_did = ? *)
Definition get_user_followers (db : DB) (did : string) : list string :=
  (λ e : string * string * FollowRow, e.1.1)
    <$> List.filter (λ e : string * string * FollowRow,
                       bool_decide (e.1.2 = did))
          (map_to_list (follows db)).

(** SELECT following_did FROM follows WHERE follower_did = ? *)
Definition get_user_following (db : DB) (did : string) : list string :=
  (λ e : string * string * FollowRow, e.1.2)
    <$> List.filter (λ e : string * string * FollowRow,
                       bool_decide (e.1.1 = did))
          (map_to_list (follows db)).

(** The rows of the subquery of [get_connection_count]: the two selections
    above joined by UNION, which removes duplicate rows. *)
Definition connections (db : DB) (did : string) : gset string :=
  list_to_set (get_user_followers db did)
  ∪ list_to_set (get_user_following db did).

(** SELECT COUNT( * ) FROM (... UNION ...) *)
Definition get_connection_count (db : DB) (did : string) : Z :=
  Z.of_nat (size (connections db did)).

Record Stats := {
  total_users : Z;
  crawled_users : Z;
  uncrawled_users : Z;
  total_follows : Z;
  mutual_follows : Z
}.

(** The four COUNT( * ) queries of [get_stats] and the dictionary built from
    them. *)
Definition get_stats (db : DB) : Stats :=
  let total_users := Z.of_nat (length (map_to_list (users db))) in
  let crawled_users :=
    Z.of_nat (length (List.filter (λ p : string * UserRow, u_crawled p.2)
                        (map_to_list (users db)))) in
  let total_follows := Z.of_nat (length (map_to_list (follows db))) in
  let mutual_follows :=
    Z.of_nat (length (List.filter
                        (λ e : string * string * FollowRow, f_is_mutual e.2)
                        (map_to_list (follows db)))) in
  {| total_users := total_users;
     crawled_users := crawled_users;
     uncrawled_users := total_users - crawled_users;
     total_follows := total_follows;
     mutual_follows := mutual_follows |}.

(** ** phase2.py *)

Definition clear_crawled (r : UserRow) : UserRow :=
  {| u_handle := u_handle r; u_display_name := u_display_name r;
     u_followers_count := u_followers_count r;
     u_follows_count := u_follows_count r;
     u_description := u_description r;
     u_crawled := false; u_is_mutual_core := u_is_mutual_core r |}.

(** UPDATE users SET crawled = 0 WHERE is_mutual_core = 0 *)
Definition reset_phase2_users (db : DB) : DB :=
  {| users := (λ r, if u_is_mutual_core r then r else clear_crawled r)
                <$> users db;
     follows := follows db |}.

(** The run of [phase2.py]: the optional reset, then Phase 2 with the
    chosen threshold and [max_users=None]. *)
Definition phase2_main (fuel : nat) (api : BlueskyAPI) (db : DB)
    (min_connections : Z) (reset : bool) : run Phase2 :=
  phase2_expand_graph fuel api
    (if reset then reset_phase2_users db else db) min_connections None.

(** ** bluesky_api.py: get_profiles_batch *)

(** [if len(actors) > 25: actors = actors[:25]] *)
Definition batch_request (actors : list string) : list string :=
  if (25 <? length actors)%nat then take 25 actors else actors.

(** [endpoint] is [client.app.bsky.actor.get_profiles], [None] when the
    request raises; the [except] branch returns the empty list. *)
Definition get_profiles_batch (endpoint : list string → option (list Profile))
    (actors : list string) : list Profile :=
  match endpoint (batch_request actors) with
  | Some profiles => profiles
  | None => []
  end.

(** ** main.py: main *)

(** What [main] has done when it is observed: Phase 1 only (still running,
    or left by an exception, which ends [main]), or Phase 1 to its end
    followed by Phase 2. *)
Inductive main_run :=
  | InPhase1 (r : run Phase1)
  | InPhase2 (s1 : Phase1) (r : run Phase2).

(** [phase1_mutuals_graph(api, db, seed_account, max_users=50)] followed by
    [phase2_expand_graph(api, db, min_connections=MIN_CONNECTIONS,
    max_users=100)]; [seed_account] is [api.me.did]. *)
Definition main (fuel1 fuel2 : nat) (api : BlueskyAPI) (db : DB)
    (seed_account : string) : main_run :=
  match phase1_mutuals_graph fuel1 api db seed_account (Some 50) with
  | Finished s1 =>
      InPhase2 s1
        (phase2_expand_graph fuel2 api (p1_db s1) MIN_CONNECTIONS (Some 100))
  | r => InPhase1 r
  end.

Definition main_db (m : main_run) : DB :=
  match m with
  | InPhase1 r => p1_db (state_of r)
  | InPhase2 _ r => p2_db (state_of r)
  end.

(** ** Reading a trace *)

(** The identifiers of the crawl events, newest first. *)
Definition crawled_dids (trace : list event) : list string :=
  omap (λ e, match e with EvCrawl d => Some d | EvEnqueue _ _ _ => None end)
       trace.

(** Every account has both flags set or both unset. *)
Definition flags_agree (db : DB) : Prop :=
  ∀ d, is_core db d = truthy (is_crawled db d).

(** [db'] extends [db]: every account keeps a row, a set crawled or core
    flag stays set, and every edge is still there with the same row. *)
Definition store_extends (db db' : DB) : Prop :=
  (∀ d, is_Some (users db !! d) → is_Some (users db' !! d)) ∧
  (∀ d, truthy (is_crawled db d) = true → truthy (is_crawled db' d) = true) ∧
  (∀ d, is_core db d = true → is_core db' d = true) ∧
  (∀ k r, follows db !! k = Some r → follows db' !! k = Some r).

(** Every edge of [db'] is an edge of [db] with the same row, or is not
    flagged mutual. *)
Definition only_plain_edges_added (db db' : DB) : Prop :=
  ∀ k r, follows db' !! k = Some r →
         follows db !! k = Some r ∨ f_is_mutual r = false.

(** The remote answers a profile request with the profile of the requested
    account. *)
Definition profiles_match (api : BlueskyAPI) : Prop :=
  ∀ actor profile, get_profile api actor = Some profile → p_did profile = actor.

(* ===================================================================== *)
(** * Properties of the store *)

Lemma add_follow_users fd fh gd gh m db :
  users (add_follow fd fh gd gh m db) = users db.
Proof. unfold add_follow. by destruct (follows db !! (fd, gd)). Qed.

Lemma add_follow_present fd fh gd gh m db :
  is_Some (follows db !! (fd, gd)) → add_follow fd fh gd gh m db = db.
Proof. intros [r Hr]. unfold add_follow. by rewrite Hr. Qed.

Lemma add_follow_lookup fd fh gd gh m db :
  follows db !! (fd, gd) = None →
  follows (add_follow fd fh gd gh m db) !! (fd, gd)
  = Some {| f_follower_handle := fh; f_following_handle := gh;
            f_is_mutual := m |}.
Proof.
  intros Hn. unfold add_follow. rewrite Hn. simpl. apply lookup_insert_eq.
Qed.

Lemma mark_as_crawled_absent did db :
  users db !! did = None → mark_as_crawled did db = db.
Proof.
  intros Hn. destruct db as [us fs]. unfold mark_as_crawled. simpl in *.
  f_equal. apply map_eq. intros j. rewrite lookup_alter.
  case_decide; [subst; by rewrite Hn | done].
Qed.

Lemma mark_as_mutual_core_absent did db :
  users db !! did = None → mark_as_mutual_core did db = db.
Proof.
  intros Hn. destruct db as [us fs]. unfold mark_as_mutual_core. simpl in *.
  f_equal. apply map_eq. intros j. rewrite lookup_alter.
  case_decide; [subst; by rewrite Hn | done].
Qed.

Lemma is_core_row db did :
  is_core db did = true → is_Some (users db !! did).
Proof. unfold is_core. destruct (users db !! did); [eauto | discriminate]. Qed.

Lemma elem_of_core_followers db did x :
  x ∈ core_followers db did ↔
  is_core db x = true ∧ is_Some (follows db !! (x, did)).
Proof.
  unfold core_followers. rewrite elem_of_list_to_set, list_elem_of_omap. split.
  - intros [[[a b] r] [Hin Hf]]. apply elem_of_map_to_list in Hin. simpl in Hf.
    destruct (bool_decide_reflect (b = did)) as [->|]; [|discriminate].
    simpl in Hf. destruct (is_core db a) eqn:Hc; [|discriminate].
    injection Hf as <-. eauto.
  - intros [Hc [r Hr]]. exists ((x, did), r).
    split; [by apply elem_of_map_to_list |].
    simpl. rewrite bool_decide_eq_true_2 by done. by rewrite Hc.
Qed.

Lemma elem_of_core_following db did x :
  x ∈ core_following db did ↔
  is_core db x = true ∧ is_Some (follows db !! (did, x)).
Proof.
  unfold core_following. rewrite elem_of_list_to_set, list_elem_of_omap. split.
  - intros [[[a b] r] [Hin Hf]]. apply elem_of_map_to_list in Hin. simpl in Hf.
    destruct (bool_decide_reflect (a = did)) as [->|]; [|discriminate].
    simpl in Hf. destruct (is_core db b) eqn:Hc; [|discriminate].
    injection Hf as <-. eauto.
  - intros [Hc [r Hr]]. exists ((did, x), r).
    split; [by apply elem_of_map_to_list |].
    simpl. rewrite bool_decide_eq_true_2 by done. by rewrite Hc.
Qed.

(** The SQL of [get_mutual_core_connection_count] counts the set that the
    spec describes. *)
Lemma core_connection_set db did :
  core_followers db did ∪ core_following db did = core_links db did.
Proof.
  apply set_eq. intros x. unfold core_links.
  rewrite elem_of_union, elem_of_core_followers, elem_of_core_following.
  rewrite elem_of_filter, elem_of_dom.
  pose proof (is_core_row db x). tauto.
Qed.

Lemma core_connection_count_spec db did :
  get_mutual_core_connection_count db did = Z.of_nat (size (core_links db did)).
Proof.
  unfold get_mutual_core_connection_count. by rewrite core_connection_set.
Qed.

(** C4.  Recording a directed edge (u,v) that the store does not hold
    stores the given is_mutual value; every later [add_follow] for the
    same ordered pair, whatever handles and is_mutual value it carries,
    returns the store unchanged (and so does any [add_follow] on a store
    that already holds the pair): the stored flag is the first one
    written. *)
Theorem add_follow_first_write_wins db u v hu hv m1 hu' hv' m2 :
  follows db !! (u, v) = None →
  f_is_mutual <$> follows (add_follow u hu v hv m1 db) !! (u, v) = Some m1 ∧
  add_follow u hu' v hv' m2 (add_follow u hu v hv m1 db)
  = add_follow u hu v hv m1 db ∧
  f_is_mutual
    <$> follows (add_follow u hu' v hv' m2 (add_follow u hu v hv m1 db)) !! (u, v)
  = Some m1 ∧
  (∀ db', is_Some (follows db' !! (u, v)) →
          add_follow u hu' v hv' m2 db' = db').
Proof.
  intros Hn.
  assert (Hl := add_follow_lookup u hu v hv m1 db Hn).
  assert (Hnoop : add_follow u hu' v hv' m2 (add_follow u hu v hv m1 db)
                  = add_follow u hu v hv m1 db).
  { apply add_follow_present. rewrite Hl. eauto. }
  repeat split.
  - by rewrite Hl.
  - exact Hnoop.
  - rewrite Hnoop. by rewrite Hl.
  - intros db'. apply add_follow_present.
Qed.

Lemma add_follow_first_write_wins_witness :
  f_is_mutual
    <$> follows (add_follow "u" "u.h" "v" "v.h" true
                   (add_follow "u" "u.h" "v" "v.h" false empty_db)) !! ("u", "v")
  = Some false.
Proof.
  apply (add_follow_first_write_wins empty_db "u" "v" "u.h" "v.h" false
           "u.h" "v.h" true).
  reflexivity.
Defined.


(** C10.  For an identifier without a row in [users]: [is_crawled] returns
    [None] (falsy), and [mark_as_crawled] and [mark_as_mutual_core] return
    the store as it was, creating no row. *)
Theorem unknown_id_is_untouched db did :
  users db !! did = None →
  is_crawled db did = None ∧
  truthy (is_crawled db did) = false ∧
  mark_as_crawled did db = db ∧
  mark_as_mutual_core did db = db.
Proof.
  intros Hn. unfold is_crawled. rewrite Hn.
  auto using mark_as_crawled_absent, mark_as_mutual_core_absent.
Qed.

Lemma unknown_id_is_untouched_witness :
  is_crawled empty_db "did:plc:x" = None ∧
  truthy (is_crawled empty_db "did:plc:x") = false ∧
  mark_as_crawled "did:plc:x" empty_db = empty_db ∧
  mark_as_mutual_core "did:plc:x" empty_db = empty_db.
Proof. apply (unknown_id_is_untouched empty_db "did:plc:x"). reflexivity. Defined.



(* ===================================================================== *)
(** * The flags under the store operations *)

Lemma same_flags_refl db : same_flags db db.
Proof. by split. Qed.

Lemma same_flags_trans db1 db2 db3 :
  same_flags db1 db2 → same_flags db2 db3 → same_flags db1 db3.
Proof.
  intros [H1 H2] [H3 H4]. split; intros x; [rewrite H3 | rewrite H4]; auto.
Qed.

Lemma add_user_same_flags did handle dn fc fo de db :
  same_flags db (store_of (add_user did handle dn fc fo de db)).
Proof.
  unfold add_user.
  destruct (users db !! did) as [ex|] eqn:Hex.
  - destruct (keep_count fc (u_followers_count ex)); [|apply same_flags_refl].
    destruct (keep_count fo (u_follows_count ex)); [|apply same_flags_refl].
    split; intros x; unfold is_crawled, is_core; simpl;
      (destruct (decide (x = did)) as [->|Hne];
       [rewrite lookup_insert_eq, Hex | rewrite lookup_insert_ne by done]; done).
  - split; intros x; unfold is_crawled, is_core; simpl;
      (destruct (decide (x = did)) as [->|Hne];
       [rewrite lookup_insert_eq, Hex | rewrite lookup_insert_ne by done]; done).
Qed.

Lemma add_follow_same_flags fd fh gd gh m db :
  same_flags db (add_follow fd fh gd gh m db).
Proof.
  split; intros x; unfold is_crawled, is_core; by rewrite add_follow_users.
Qed.

Lemma and_then_same_flags db e k :
  same_flags db (store_of e) →
  (∀ db1, same_flags db1 (store_of (k db1))) →
  same_flags db (store_of (and_then e k)).
Proof.
  intros He Hk. destruct e as [db1|db1]; simpl in *; [|done].
  eapply same_flags_trans; [exact He | apply Hk].
Qed.

Lemma phase1_add_follows_same_flags cur h ms l db :
  same_flags db (store_of (phase1_add_follows cur h ms l db)).
Proof.
  revert db. induction l as [|f l IH]; intros db; simpl.
  - apply same_flags_refl.
  - apply and_then_same_flags; [apply add_user_same_flags|].
    intros db1. eapply same_flags_trans; [apply add_follow_same_flags | apply IH].
Qed.

Lemma phase1_add_followers_same_flags cur h fs l db :
  same_flags db (store_of (phase1_add_followers cur h fs l db)).
Proof.
  revert db. induction l as [|f l IH]; intros db; simpl.
  - apply same_flags_refl.
  - apply and_then_same_flags; [apply add_user_same_flags|].
    intros db1. case_bool_decide; [|apply IH].
    eapply same_flags_trans; [apply add_follow_same_flags | apply IH].
Qed.

Lemma phase2_add_follows_same_flags cur h l db :
  same_flags db (store_of (phase2_add_follows cur h l db)).
Proof.
  revert db. induction l as [|f l IH]; intros db; simpl.
  - apply same_flags_refl.
  - apply and_then_same_flags.
    + destruct (user_exists db (c_did f));
        [apply same_flags_refl | apply add_user_same_flags].
    + intros db1.
      eapply same_flags_trans; [apply add_follow_same_flags | apply IH].
Qed.

Lemma phase2_add_followers_same_flags cur h l db :
  same_flags db (store_of (phase2_add_followers cur h l db)).
Proof.
  revert db. induction l as [|f l IH]; intros db; simpl.
  - apply same_flags_refl.
  - apply and_then_same_flags.
    + destruct (user_exists db (c_did f));
        [apply same_flags_refl | apply add_user_same_flags].
    + intros db1.
      eapply same_flags_trans; [apply add_follow_same_flags | apply IH].
Qed.

Lemma is_crawled_mark_as_crawled did db x :
  truthy (is_crawled (mark_as_crawled did db) x) = true →
  x = did ∨ truthy (is_crawled db x) = true.
Proof.
  unfold is_crawled, mark_as_crawled. simpl. rewrite lookup_alter.
  case_decide; [subst; by left | by right].
Qed.

Lemma is_crawled_mark_as_crawled_ne did db x :
  x ≠ did →
  truthy (is_crawled (mark_as_crawled did db) x) = truthy (is_crawled db x).
Proof.
  intros Hne. unfold is_crawled, mark_as_crawled. simpl.
  by rewrite lookup_alter_ne.
Qed.

Lemma is_crawled_mark_as_mutual_core did db x :
  is_crawled (mark_as_mutual_core did db) x = is_crawled db x.
Proof.
  unfold is_crawled, mark_as_mutual_core. simpl. rewrite lookup_alter.
  case_decide; [subst|done]. by destruct (users db !! x).
Qed.

Lemma is_core_mark_as_crawled did db x :
  is_core (mark_as_crawled did db) x = is_core db x.
Proof.
  unfold is_core, mark_as_crawled. simpl. rewrite lookup_alter.
  case_decide; [subst|done]. by destruct (users db !! x).
Qed.

(* ===================================================================== *)
(** * Phase 1, pass by pass *)

Lemma phase1_enqueue_spec db processed cur ms q tr :
  phase1_enqueue db processed cur ms q tr =
  let ms' :=
    List.filter (λ m, negb (bool_decide (m ∈ processed))
                      && negb (truthy (is_crawled db m))) ms in
  (q ++ ms', rev ((λ m, EvEnqueue m (Some cur) db) <$> ms') ++ tr).
Proof.
  revert q tr. induction ms as [|m ms IH]; intros q tr; simpl.
  - by rewrite app_nil_r.
  - destruct (negb (bool_decide (m ∈ processed))
              && negb (truthy (is_crawled db m))); rewrite IH; simpl; [|done].
    by rewrite <- !app_assoc.
Qed.

(** The shapes a pass of Phase 1 can take: the loop is left; the head of
    the queue is dropped without a store write; an upsert raises; or the
    head is crawled. *)
Lemma phase1_step_cases api max_users s :
  phase1_step api max_users s = Stop s ∨
  ∃ cur rest,
    p1_to_process s = cur :: rest ∧
    limit_reached max_users (Z.of_nat (size (p1_processed s))) = false ∧
    (phase1_step api max_users s
     = Next {| p1_db := p1_db s; p1_to_process := rest;
               p1_processed := p1_processed s; p1_trace := p1_trace s |}
     ∨ (∃ db', same_flags (p1_db s) db' ∧
          phase1_step api max_users s
          = Abort {| p1_db := db'; p1_to_process := rest;
                     p1_processed := p1_processed s; p1_trace := p1_trace s |})
     ∨ (∃ db3 ms,
          (cur ∉ p1_processed s) ∧
          truthy (is_crawled (p1_db s) cur) = false ∧
          is_Some (get_profile api cur) ∧
          same_flags (p1_db s) db3 ∧
          ms = List.filter (λ m, negb (bool_decide (m ∈ p1_processed s))
                                 && negb (truthy (is_crawled db3 m)))
                 (elements (r_mutuals (find_mutuals api cur))) ∧
          phase1_step api max_users s
          = Next {| p1_db := mark_as_mutual_core cur (mark_as_crawled cur db3);
                    p1_to_process := rest ++ ms;
                    p1_processed := {[cur]} ∪ p1_processed s;
                    p1_trace :=
                      EvCrawl cur
                      :: rev ((λ m, EvEnqueue m (Some cur) db3) <$> ms)
                      ++ p1_trace s |})).
Proof.
  unfold phase1_step.
  destruct (p1_to_process s) as [|cur rest]; [by left|].
  destruct (limit_reached max_users _) eqn:Hlim; [by left|].
  right. exists cur, rest. split; [done|]. split; [done|].
  destruct (bool_decide_reflect (cur ∈ p1_processed s)) as [Hin|Hnin];
    simpl; [by left|].
  destruct (truthy (is_crawled (p1_db s) cur)) eqn:Hcr; [by left|].
  destruct (get_profile api cur) as [profile|] eqn:Hprof; [|by left].
  right.
  pose proof (add_user_same_flags (p_did profile) (p_handle profile)
                (p_display_name profile) (p_followers_count profile)
                (p_follows_count profile) (p_description profile) (p1_db s))
    as H1.
  destruct (add_user _ _ _ _ _ _ _) as [db1|db']; simpl in H1;
    [|left; eauto].
  pose proof (phase1_add_follows_same_flags cur (p_handle profile)
                (r_mutuals (find_mutuals api cur))
                (r_follows (find_mutuals api cur)) db1) as H2.
  destruct (phase1_add_follows _ _ _ _ _) as [db2|db']; simpl in H2;
    [|left; eauto using same_flags_trans].
  pose proof (phase1_add_followers_same_flags cur (p_handle profile)
                (list_to_set (c_did <$> r_follows (find_mutuals api cur)))
                (r_followers (find_mutuals api cur)) db2) as H3.
  destruct (phase1_add_followers _ _ _ _ _) as [db3|db']; simpl in H3;
    [|left; eauto using same_flags_trans].
  right. eexists db3, _. split; [done|]. split; [done|]. split; [eauto|].
  split; [eauto using same_flags_trans|]. split; [reflexivity|].
  by rewrite phase1_enqueue_spec.
Qed.

(** A property kept by every pass holds at every point where a run can be
    observed: while it is running, when it has finished, where it crashed. *)
Lemma loop_invariant {S : Type} (body : S → step S) (Inv : S → Prop) :
  (∀ s, Inv s → Inv (step_state (body s))) →
  ∀ fuel s, Inv s → Inv (state_of (loop body fuel s)).
Proof.
  intros Hstep fuel. induction fuel as [|fuel IH]; intros s Hs; simpl; [done|].
  specialize (Hstep s Hs). destruct (body s); simpl in *; auto.
Qed.

Lemma elem_of_mutuals api actor did :
  did ∈ r_mutuals (find_mutuals api actor) ↔
  did ∈ c_did <$> get_all_follows api actor ∧
  did ∈ c_did <$> get_all_followers api actor.
Proof.
  unfold find_mutuals. simpl.
  by rewrite elem_of_intersection, !elem_of_list_to_set.
Qed.

Lemma elem_of_List_filter {A} (f : A → bool) (l : list A) x :
  x ∈ List.filter f l ↔ x ∈ l ∧ f x = true.
Proof. rewrite !list_elem_of_In. apply filter_In. Qed.

Lemma elem_of_rev {A} (l : list A) x : x ∈ rev l ↔ x ∈ l.
Proof. rewrite !list_elem_of_In. symmetry. apply in_rev. Qed.

(** C2.  At every point of a Phase 1 run: an identifier in the queue is
    the seed or was appended by an enqueue event of the run; and every
    enqueue event appends a member of the mutual intersection (the follows
    identifiers intersected with the followers identifiers) computed for
    the account being crawled in that pass, which is marked crawled and
    joins [processed] at the end of the same pass. *)
Theorem phase1_enqueues_only_mutuals fuel api db seed max_users :
  let s := state_of (phase1_mutuals_graph fuel api db seed max_users) in
  (∀ d, d ∈ p1_to_process s →
        d = seed ∨ ∃ src store, EvEnqueue d src store ∈ p1_trace s) ∧
  (∀ did src store,
     EvEnqueue did src store ∈ p1_trace s →
     ∃ cur, src = Some cur ∧
            did ∈ r_mutuals (find_mutuals api cur) ∧
            did ∈ c_did <$> get_all_follows api cur ∧
            did ∈ c_did <$> get_all_followers api cur ∧
            EvCrawl cur ∈ p1_trace s ∧
            cur ∈ p1_processed s).
Proof.
  unfold phase1_mutuals_graph.
  apply (loop_invariant (phase1_step api max_users)
           (λ s,
              (∀ d, d ∈ p1_to_process s →
                    d = seed ∨ ∃ src store, EvEnqueue d src store ∈ p1_trace s) ∧
              (∀ did src store,
                 EvEnqueue did src store ∈ p1_trace s →
                 ∃ cur, src = Some cur ∧
                        did ∈ r_mutuals (find_mutuals api cur) ∧
                        did ∈ c_did <$> get_all_follows api cur ∧
                        did ∈ c_did <$> get_all_followers api cur ∧
                        EvCrawl cur ∈ p1_trace s ∧
                        cur ∈ p1_processed s))).
  - intros s [Hq Htr].
    destruct (phase1_step_cases api max_users s)
      as [-> | (cur & rest & Hqueue & _ & [-> | [(db' & _ & ->)
            | (db3 & ms & _ & _ & _ & _ & Hms & ->)]])]; simpl.
    + done.
    + split; [|done]. intros d Hd. apply Hq. rewrite Hqueue. by right.
    + split; [|done]. intros d Hd. apply Hq. rewrite Hqueue. by right.
    + assert (Hms' : ∀ d, d ∈ ms → d ∈ r_mutuals (find_mutuals api cur)).
      { intros d Hd. rewrite Hms in Hd. apply elem_of_List_filter in Hd.
        destruct Hd as [Hd _]. by apply elem_of_elements in Hd. }
      split.
      * intros d [Hd | Hd]%elem_of_app.
        -- destruct (Hq d) as [-> | (src & store & He)];
             [rewrite Hqueue; by right | by left |].
           right. exists src, store. right. apply elem_of_app. by right.
        -- right. exists (Some cur), db3. right. apply elem_of_app. left.
           apply elem_of_rev. apply list_elem_of_fmap. eauto.
      * intros did src store [Heq | [He | He]%elem_of_app]%elem_of_cons.
        -- discriminate Heq.
        -- apply elem_of_rev, list_elem_of_fmap in He.
           destruct He as (m & Heq & Hm). injection Heq as -> -> ->.
           exists cur. split; [done|]. split; [auto|].
           destruct (proj1 (elem_of_mutuals api cur m) (Hms' m Hm)).
           repeat split; [done | done | by left |].
           apply elem_of_union. left. by apply elem_of_singleton.
        -- destruct (Htr did src store He)
             as (c & -> & H1 & H2 & H3 & H4 & H5).
           exists c. repeat split; [done..| |].
           ++ right. apply elem_of_app. by right.
           ++ apply elem_of_union. by right.
  - simpl. split.
    + intros d ->%list_elem_of_singleton. by left.
    + intros did src store H. by apply elem_of_nil in H.
Qed.

Lemma enqueued_in_elem did trace :
  enqueued_in did trace = true →
  ∃ src store, EvEnqueue did src store ∈ trace.
Proof.
  unfold enqueued_in. rewrite existsb_exists.
  intros ([d src store | d] & Hin & He); [|discriminate].
  apply String.eqb_eq in He as ->. exists src, store.
  by apply list_elem_of_In.
Qed.

Lemma phase1_enqueues_only_mutuals_witness :
  ∃ cur,
    "A" ∈ r_mutuals (find_mutuals api_triangle cur) ∧
    cur ∈ p1_processed
            (state_of (phase1_mutuals_graph 1 api_triangle empty_db "S" None)).
Proof.
  destruct (phase1_enqueues_only_mutuals 1 api_triangle empty_db "S" None)
    as [_ H].
  destruct (enqueued_in_elem "A"
              (p1_trace (state_of (phase1_mutuals_graph 1 api_triangle
                                     empty_db "S" None))))
    as (src & store & Hin); [by vm_compute|].
  destruct (H "A" src store Hin) as (cur & _ & Hm & _ & _ & _ & Hp).
  by exists cur.
Defined.



(* ===================================================================== *)
(** * The end-to-end scenario of Phase 1 *)

Lemma add_user_fresh did handle dn fc fo de db :
  users db !! did = None →
  add_user did handle dn fc fo de db
  = Fine {| users := <[did := {| u_handle := handle; u_display_name := dn;
                                 u_followers_count := fc; u_follows_count := fo;
                                 u_description := de; u_crawled := false;
                                 u_is_mutual_core := false |}]> (users db);
            follows := follows db |}.
Proof. intros H. unfold add_user. by rewrite H. Qed.




(* ===================================================================== *)
(** * Phase 2, pass by pass *)

(** What the scan of [temp_connections] appends: identifiers that are not
    processed, not in the queue, not crawled, and whose count against the
    store of that moment reaches the threshold; none of them twice. *)
Lemma phase2_scan_spec db processed T cur conns q tr :
  ∃ ms,
    phase2_scan db processed T cur conns q tr
    = (q ++ ms, rev ((λ m, EvEnqueue m (Some cur) db) <$> ms) ++ tr) ∧
    NoDup ms ∧
    ∀ m, m ∈ ms →
         (m ∉ processed) ∧ (m ∉ q) ∧ truthy (is_crawled db m) = false ∧
         T ≤ get_mutual_core_connection_count db m ∧ m ∈ conns.*1.
Proof.
  revert q tr. induction conns as [|[c h] conns IH]; intros q tr.
  - exists []. simpl. rewrite app_nil_r. split; [done|].
    split; [constructor|]. intros m Hm. by apply elem_of_nil in Hm.
  - assert (Hskip :
      ∃ ms, phase2_scan db processed T cur conns q tr
            = (q ++ ms, rev ((λ m, EvEnqueue m (Some cur) db) <$> ms) ++ tr) ∧
            NoDup ms ∧
            ∀ m, m ∈ ms →
                 (m ∉ processed) ∧ (m ∉ q) ∧ truthy (is_crawled db m) = false ∧
                 T ≤ get_mutual_core_connection_count db m ∧
                 m ∈ ((c, h) :: conns).*1).
    { destruct (IH q tr) as (ms & Heq & Hnd & Hms). exists ms.
      split; [done|]. split; [done|]. intros m Hm.
      destruct (Hms m Hm) as (? & ? & ? & ? & ?).
      repeat split; try done. simpl. by right. }
    simpl.
    destruct (bool_decide_reflect (c ∈ processed)) as [|Hnp]; [done|].
    destruct (bool_decide_reflect (c ∈ q)) as [|Hnq]; [done|].
    destruct (truthy (is_crawled db c)) eqn:Hcr; [done|].
    destruct (Z.leb_spec T (get_mutual_core_connection_count db c))
      as [Hle|]; [|done].
    clear Hskip.
    destruct (IH (q ++ [c]) (EvEnqueue c (Some cur) db :: tr))
      as (ms & Heq & Hnd & Hms).
    exists (c :: ms). split; [|split].
    + rewrite Heq. simpl. by rewrite <- !app_assoc.
    + constructor; [|done]. intros Hin.
      destruct (Hms c Hin) as (_ & Hnq' & _). apply Hnq'.
      apply elem_of_app. right. by left.
    + intros m [->|Hm]%elem_of_cons.
      * repeat split; try done. simpl. by left.
      * destruct (Hms m Hm) as (? & Hnq' & ? & ? & ?).
        repeat split; try done.
        -- intros Hin. apply Hnq'. apply elem_of_app. by left.
        -- simpl. by right.
Qed.

Lemma phase2_initial_queue_spec db T l q tr :
  phase2_initial_queue db T l q tr =
  let ms :=
    List.filter (λ d, T <=? get_mutual_core_connection_count db d) (l.*1) in
  (q ++ ms, rev ((λ m, EvEnqueue m None db) <$> ms) ++ tr).
Proof.
  revert q tr. induction l as [|[d h] l IH]; intros q tr; simpl.
  - by rewrite app_nil_r.
  - destruct (T <=? get_mutual_core_connection_count db d); rewrite IH; simpl;
      [|done].
    by rewrite <- !app_assoc.
Qed.

(** The shapes a pass of Phase 2 can take: the loop is left; the head of
    the queue is dropped because it is processed or crawled; its profile
    fetch fails; an upsert raises; or the head is crawled. *)
Lemma phase2_step_cases api T max_users s :
  phase2_step api T max_users s = Stop s ∨
  ∃ cur rest,
    p2_to_process s = cur :: rest ∧
    limit_reached max_users (p2_crawled_count s) = false ∧
    (phase2_step api T max_users s
     = Next {| p2_db := p2_db s; p2_to_process := rest;
               p2_processed := p2_processed s;
               p2_crawled_count := p2_crawled_count s;
               p2_trace := p2_trace s |}
     ∨ ((cur ∉ p2_processed s) ∧
        truthy (is_crawled (p2_db s) cur) = false ∧
        get_profile api cur = None ∧
        phase2_step api T max_users s
        = Next {| p2_db := p2_db s; p2_to_process := rest;
                  p2_processed := {[cur]} ∪ p2_processed s;
                  p2_crawled_count := p2_crawled_count s;
                  p2_trace := p2_trace s |})
     ∨ (∃ db', same_flags (p2_db s) db' ∧
          phase2_step api T max_users s
          = Abort {| p2_db := db'; p2_to_process := rest;
                     p2_processed := p2_processed s;
                     p2_crawled_count := p2_crawled_count s;
                     p2_trace := p2_trace s |})
     ∨ (∃ db3 ms,
          (cur ∉ p2_processed s) ∧
          truthy (is_crawled (p2_db s) cur) = false ∧
          is_Some (get_profile api cur) ∧
          same_flags (p2_db s) db3 ∧
          NoDup ms ∧
          (∀ m, m ∈ ms →
                (m ∉ p2_processed s) ∧ (m ∉ rest) ∧
                truthy (is_crawled db3 m) = false ∧
                T ≤ get_mutual_core_connection_count db3 m) ∧
          phase2_step api T max_users s
          = Next {| p2_db := mark_as_crawled cur db3;
                    p2_to_process := rest ++ ms;
                    p2_processed := {[cur]} ∪ p2_processed s;
                    p2_crawled_count := p2_crawled_count s + 1;
                    p2_trace :=
                      EvCrawl cur
                      :: rev ((λ m, EvEnqueue m (Some cur) db3) <$> ms)
                      ++ p2_trace s |})).
Proof.
  unfold phase2_step.
  destruct (p2_to_process s) as [|cur rest]; [by left|].
  destruct (limit_reached max_users _) eqn:Hlim; [by left|].
  right. exists cur, rest. split; [done|]. split; [done|].
  destruct (bool_decide_reflect (cur ∈ p2_processed s)) as [Hin|Hnin];
    simpl; [by left|].
  destruct (truthy (is_crawled (p2_db s) cur)) eqn:Hcr; [by left|].
  destruct (get_profile api cur) as [profile|] eqn:Hprof;
    [|right; left; done].
  right. right.
  pose proof (add_user_same_flags (p_did profile) (p_handle profile)
                (p_display_name profile) (p_followers_count profile)
                (p_follows_count profile) (p_description profile) (p2_db s))
    as H1.
  destruct (add_user _ _ _ _ _ _ _) as [db1|db']; simpl in H1;
    [|left; eauto].
  pose proof (phase2_add_follows_same_flags cur (p_handle profile)
                (get_all_follows api cur) db1) as H2.
  destruct (phase2_add_follows _ _ _ _) as [db2|db']; simpl in H2;
    [|left; eauto using same_flags_trans].
  pose proof (phase2_add_followers_same_flags cur (p_handle profile)
                (get_all_followers api cur) db2) as H3.
  destruct (phase2_add_followers _ _ _ _) as [db3|db']; simpl in H3;
    [|left; eauto using same_flags_trans].
  right.
  destruct (phase2_scan_spec db3 (p2_processed s) T cur
              (dict_add_all (get_all_followers api cur)
                 (dict_add_all (get_all_follows api cur) []))
              rest (p2_trace s)) as (ms & Heq & Hnd & Hms).
  exists db3, ms. split; [done|]. split; [done|]. split; [eauto|].
  split; [eauto using same_flags_trans|]. split; [done|]. split.
  - intros m Hm. destruct (Hms m Hm) as (? & ? & ? & ? & ?). done.
  - by rewrite Heq.
Qed.

(** C7.  When, in Phase 2, [get_profile] fails for the account taken from
    the queue, the pass adds it to [processed] and changes nothing else:
    the store (and with it the account's crawled flag), the crawl counter
    and the trace are the same.  From then on in this run the account
    stays processed, its crawled flag stays unset, and no crawl event for
    it is added. *)
Theorem phase2_profile_fetch_failure api T max_users s cur rest :
  p2_to_process s = cur :: rest →
  limit_reached max_users (p2_crawled_count s) = false →
  cur ∉ p2_processed s →
  truthy (is_crawled (p2_db s) cur) = false →
  get_profile api cur = None →
  phase2_step api T max_users s
  = Next {| p2_db := p2_db s; p2_to_process := rest;
            p2_processed := {[cur]} ∪ p2_processed s;
            p2_crawled_count := p2_crawled_count s;
            p2_trace := p2_trace s |} ∧
  ∀ fuel,
    let s' := state_of (loop (phase2_step api T max_users) (S fuel) s) in
    cur ∈ p2_processed s' ∧
    truthy (is_crawled (p2_db s') cur) = false ∧
    ∃ new, p2_trace s' = new ++ p2_trace s ∧ EvCrawl cur ∉ new.
Proof.
  intros Hq Hlim Hnp Hcr Hprof.
  assert (Hstep : phase2_step api T max_users s
                  = Next {| p2_db := p2_db s; p2_to_process := rest;
                            p2_processed := {[cur]} ∪ p2_processed s;
                            p2_crawled_count := p2_crawled_count s;
                            p2_trace := p2_trace s |}).
  { unfold phase2_step. rewrite Hq, Hlim, Hprof, Hcr.
    by rewrite bool_decide_eq_false_2. }
  split; [exact Hstep|].
  intros fuel. cbn [loop]. rewrite Hstep.
  apply (loop_invariant (phase2_step api T max_users)
           (λ s', cur ∈ p2_processed s' ∧
                  truthy (is_crawled (p2_db s') cur) = false ∧
                  ∃ new, p2_trace s' = new ++ p2_trace s ∧ EvCrawl cur ∉ new)).
  - clear. intros s' (Hin & Hflag & new & Htr & Hnew).
    destruct (phase2_step_cases api T max_users s')
      as [-> | (h & rest & _ & _ & [-> | [(_ & _ & _ & ->)
            | [(db' & Hsf & ->)
            | (db3 & ms & Hh & _ & _ & Hsf & _ & _ & ->)]]])]; simpl.
    + eauto.
    + eauto.
    + split; [apply elem_of_union; by right | eauto].
    + split; [done|]. split; [|eauto]. destruct Hsf as [Hsf _].
      by rewrite Hsf.
    + assert (cur ≠ h) by (intros ->; done).
      split; [apply elem_of_union; by right|]. split.
      * rewrite is_crawled_mark_as_crawled_ne by done.
        destruct Hsf as [Hsf _]. by rewrite Hsf.
      * exists (EvCrawl h :: rev ((λ m, EvEnqueue m (Some h) db3) <$> ms)
                ++ new).
        split; [rewrite Htr; simpl; by rewrite app_assoc|].
        intros [Heq | [He | He]%elem_of_app]%elem_of_cons.
        -- congruence.
        -- apply elem_of_rev, list_elem_of_fmap in He.
           by destruct He as (? & ? & _).
        -- done.
  - simpl. split; [apply elem_of_union; left; by apply elem_of_singleton|].
    split; [done|]. exists []. split; [done|]. apply not_elem_of_nil.
Qed.

Lemma phase2_profile_fetch_failure_witness :
  phase2_step api_triangle_x_down 3 None (phase2_init triangle_core_db 3)
  = Next {| p2_db := triangle_core_db; p2_to_process := [];
            p2_processed := {["X"]} ∪ ∅; p2_crawled_count := 0;
            p2_trace := p2_trace (phase2_init triangle_core_db 3) |} ∧
  truthy (is_crawled
            (p2_db (state_of (phase2_expand_graph 5 api_triangle_x_down
                                triangle_core_db 3 None))) "X") = false.
Proof.
  destruct (phase2_profile_fetch_failure api_triangle_x_down 3 None
              (phase2_init triangle_core_db 3) "X" [])
    as [H1 H2]; try reflexivity.
  - by vm_compute.
  - split; [exact H1 | apply (H2 4%nat)].
Defined.

Lemma app_eq_split_r {A} (l1 l2 tr1 tr2 : list A) x :
  l1 ++ l2 = tr1 ++ x :: tr2 → x ∉ l1 → ∃ t, l2 = t ++ x :: tr2.
Proof.
  revert tr1. induction l1 as [|a l1 IH]; intros tr1 Heq Hx; simpl in Heq.
  - by exists tr1.
  - destruct tr1 as [|b tr1]; simpl in Heq; injection Heq as -> Heq.
    + exfalso. apply Hx. by left.
    + apply (IH tr1 Heq). intros Hin. apply Hx. by right.
Qed.

(** The invariant of Phase 2 behind C1: every enqueue event was decided
    with a count that reaches the threshold; every queued identifier has
    an enqueue event; every crawl event comes after an enqueue event of
    the same identifier; and a crawled flag that the initial store did not
    have set comes with a crawl event. *)
Lemma phase2_invariant fuel api db T max_users :
  let s := state_of (phase2_expand_graph fuel api db T max_users) in
  (∀ d src store, EvEnqueue d src store ∈ p2_trace s →
                  T ≤ get_mutual_core_connection_count store d) ∧
  (∀ d, d ∈ p2_to_process s → ∃ src store, EvEnqueue d src store ∈ p2_trace s) ∧
  (∀ tr1 d tr2, p2_trace s = tr1 ++ EvCrawl d :: tr2 →
                ∃ src store, EvEnqueue d src store ∈ tr2) ∧
  (∀ d, truthy (is_crawled (p2_db s) d) = true →
        truthy (is_crawled db d) = true ∨ EvCrawl d ∈ p2_trace s).
Proof.
  unfold phase2_expand_graph.
  apply (loop_invariant (phase2_step api T max_users)
           (λ s,
              (∀ d src store, EvEnqueue d src store ∈ p2_trace s →
                              T ≤ get_mutual_core_connection_count store d) ∧
              (∀ d, d ∈ p2_to_process s →
                    ∃ src store, EvEnqueue d src store ∈ p2_trace s) ∧
              (∀ tr1 d tr2, p2_trace s = tr1 ++ EvCrawl d :: tr2 →
                            ∃ src store, EvEnqueue d src store ∈ tr2) ∧
              (∀ d, truthy (is_crawled (p2_db s) d) = true →
                    truthy (is_crawled db d) = true ∨ EvCrawl d ∈ p2_trace s))).
  - intros s (Hth & Hq & Hord & Hfl).
    destruct (phase2_step_cases api T max_users s)
      as [-> | (cur & rest & Hqueue & _ & [-> | [(_ & _ & _ & ->)
            | [(db' & Hsf & ->)
            | (db3 & ms & _ & _ & _ & Hsf & _ & Hms & ->)]]])]; simpl.
    + done.
    + repeat split; try done. intros d Hd. apply Hq. rewrite Hqueue. by right.
    + repeat split; try done. intros d Hd. apply Hq. rewrite Hqueue. by right.
    + repeat split; try done.
      * intros d Hd. apply Hq. rewrite Hqueue. by right.
      * intros d Hd. apply Hfl. destruct Hsf as [Hsf _]. by rewrite <- Hsf.
    + repeat split.
      * intros d src store [Heq | [He | He]%elem_of_app]%elem_of_cons.
        -- discriminate Heq.
        -- apply elem_of_rev, list_elem_of_fmap in He.
           destruct He as (m & Heq & Hm). injection Heq as -> -> ->.
           by destruct (Hms m Hm) as (_ & _ & _ & ?).
        -- eauto.
      * intros d [Hd | Hd]%elem_of_app.
        -- destruct (Hq d) as (src & store & He); [rewrite Hqueue; by right|].
           exists src, store. right. apply elem_of_app. by right.
        -- exists (Some cur), db3. right. apply elem_of_app. left.
           apply elem_of_rev, list_elem_of_fmap. eauto.
      * intros tr1 d tr2 Heq. destruct tr1 as [|e tr1]; simpl in Heq.
        -- injection Heq as <- <-.
           destruct (Hq cur) as (src & store & He); [rewrite Hqueue; by left|].
           exists src, store. apply elem_of_app. by right.
        -- injection Heq as _ Heq.
           apply app_eq_split_r in Heq as [t Ht].
           ++ by apply (Hord t d tr2).
           ++ intros He. apply elem_of_rev, list_elem_of_fmap in He.
              by destruct He as (? & ? & _).
      * intros d [-> | Hd]%is_crawled_mark_as_crawled.
        -- right. by left.
        -- destruct Hsf as [Hsf _]. rewrite Hsf in Hd.
           destruct (Hfl d Hd) as [? | He]; [by left|].
           right. right. apply elem_of_app. by right.
  - unfold phase2_init. rewrite phase2_initial_queue_spec. simpl.
    rewrite app_nil_r. repeat split.
    + intros d src store He.
      apply elem_of_rev, list_elem_of_fmap in He.
      destruct He as (m & Heq & [_ Hm]%elem_of_List_filter).
      injection Heq as -> -> ->. by apply Z.leb_le.
    + intros d Hd. exists None, db.
      apply elem_of_rev, list_elem_of_fmap. eauto.
    + intros tr1 d tr2 Heq.
      assert (He : EvCrawl d ∈ tr1 ++ EvCrawl d :: tr2).
      { apply elem_of_app. right. by left. }
      rewrite <- Heq in He. apply elem_of_rev, list_elem_of_fmap in He.
      by destruct He as (? & ? & _).
    + auto.
Qed.

(** C1.  Take an account whose crawled flag was not set when Phase 2
    started and is set at some point of the run.  Every enqueue event of
    that account was decided against a store in which its core-connection
    count was at least the threshold, and the trace holds a crawl event of
    the account that comes after such an enqueue event.  The count is the
    number of distinct core-flagged accounts linked to it by an edge in
    either direction. *)
Theorem phase2_crawls_only_qualified fuel api db T max_users d :
  let s := state_of (phase2_expand_graph fuel api db T max_users) in
  truthy (is_crawled db d) = false →
  truthy (is_crawled (p2_db s) d) = true →
  (∀ src store,
     EvEnqueue d src store ∈ p2_trace s →
     T ≤ get_mutual_core_connection_count store d) ∧
  ∃ tr1 tr2 src store,
    p2_trace s = tr1 ++ EvCrawl d :: tr2 ∧
    EvEnqueue d src store ∈ tr2 ∧
    T ≤ get_mutual_core_connection_count store d ∧
    get_mutual_core_connection_count store d
    = Z.of_nat (size (core_links store d)).
Proof.
  intros s H0 H1.
  destruct (phase2_invariant fuel api db T max_users)
    as (Hth & _ & Hord & Hfl).
  fold s in Hth, Hord, Hfl.
  split; [intros src store; apply Hth|].
  destruct (Hfl d H1) as [Hc | He]; [congruence|].
  apply list_elem_of_split in He as (tr1 & tr2 & Htr).
  destruct (Hord tr1 d tr2 Htr) as (src & store & He).
  exists tr1, tr2, src, store. split; [done|]. split; [done|].
  split; [|apply core_connection_count_spec].
  apply Hth with src. rewrite Htr. apply elem_of_app. right. by right.
Qed.

Lemma phase2_crawls_only_qualified_witness :
  ∃ tr1 tr2 src store,
    p2_trace (state_of (phase2_expand_graph 5 api_triangle triangle_core_db
                          3 None))
    = tr1 ++ EvCrawl "X" :: tr2 ∧
    EvEnqueue "X" src store ∈ tr2 ∧
    3 ≤ get_mutual_core_connection_count store "X".
Proof.
  assert (H0 : truthy (is_crawled triangle_core_db "X") = false)
    by (vm_compute; reflexivity).
  assert (H1 : truthy (is_crawled
                         (p2_db (state_of (phase2_expand_graph 5 api_triangle
                                             triangle_core_db 3 None))) "X")
               = true)
    by (vm_compute; reflexivity).
  destruct (phase2_crawls_only_qualified 5 api_triangle triangle_core_db 3
              None "X" H0 H1)
    as [_ (tr1 & tr2 & src & store & H2 & H3 & H4 & _)].
  exists tr1, tr2, src, store.
  split; [exact H2 | split; [exact H3 | exact H4]].
Defined.

(* ===================================================================== *)
(** * The crawl budget *)

Lemma size_union_le (X Y : gset string) :
  (size (X ∪ Y) ≤ size X + size Y)%nat.
Proof.
  rewrite size_union_alt.
  assert (size (Y ∖ X) ≤ size Y)%nat by (apply subseteq_size; set_solver).
  lia.
Qed.

Lemma limit_not_reached m n :
  m ≠ 0 → limit_reached (Some m) n = false → n < m.
Proof.
  unfold limit_reached. intros Hm H.
  destruct (Z.eqb_spec m 0); [done|]. simpl in H.
  by apply Z.leb_gt.
Qed.

(** With a budget N > 0, Phase 1 sets at most N crawled flags. *)
Lemma phase1_budget_positive fuel api db seed N :
  0 < N →
  Z.of_nat
    (size (newly_crawled db
             (p1_db (state_of (phase1_mutuals_graph fuel api db seed (Some N))))))
  ≤ N.
Proof.
  intros HN.
  assert (Hinv :
    let s := state_of (phase1_mutuals_graph fuel api db seed (Some N)) in
    (∀ d, truthy (is_crawled (p1_db s) d) = true →
          truthy (is_crawled db d) = true ∨ d ∈ p1_processed s) ∧
    Z.of_nat (size (p1_processed s)) ≤ N).
  { unfold phase1_mutuals_graph.
    apply (loop_invariant (phase1_step api (Some N))
             (λ s,
                (∀ d, truthy (is_crawled (p1_db s) d) = true →
                      truthy (is_crawled db d) = true ∨ d ∈ p1_processed s) ∧
                Z.of_nat (size (p1_processed s)) ≤ N)).
    - intros s [Hfl Hsz].
      destruct (phase1_step_cases api (Some N) s)
        as [-> | (cur & rest & _ & Hlim & [-> | [(db' & Hsf & ->)
              | (db3 & ms & _ & _ & _ & Hsf & _ & ->)]])]; simpl; try done.
      + split; [|done]. intros d Hd. apply Hfl.
        destruct Hsf as [Hsf _]. by rewrite <- Hsf.
      + split.
        * intros d Hd. rewrite is_crawled_mark_as_mutual_core in Hd.
          apply is_crawled_mark_as_crawled in Hd as [-> | Hd].
          -- right. apply elem_of_union. left. by apply elem_of_singleton.
          -- destruct Hsf as [Hsf _]. rewrite Hsf in Hd.
             destruct (Hfl d Hd); [by left|].
             right. apply elem_of_union. by right.
        * apply limit_not_reached in Hlim; [|lia].
          pose proof (size_union_le {[cur]} (p1_processed s)) as Hu.
          rewrite size_singleton in Hu. lia.
    - cbn [phase1_init p1_db p1_processed]. split; [auto|].
      rewrite size_empty. lia. }
  destruct Hinv as [Hfl Hsz].
  etrans; [|exact Hsz]. apply inj_le, subseteq_size.
  intros d [[Hd H0] _]%elem_of_filter.
  destruct (Hfl d Hd); [congruence | done].
Qed.

(** With a budget N > 0, Phase 2 sets at most N crawled flags. *)
Lemma phase2_budget_positive fuel api db T N :
  0 < N →
  Z.of_nat
    (size (newly_crawled db
             (p2_db (state_of (phase2_expand_graph fuel api db T (Some N))))))
  ≤ N.
Proof.
  intros HN.
  assert (Hinv :
    let s := state_of (phase2_expand_graph fuel api db T (Some N)) in
    ∃ X : gset string,
      (∀ d, truthy (is_crawled (p2_db s) d) = true →
            truthy (is_crawled db d) = true ∨ d ∈ X) ∧
      Z.of_nat (size X) ≤ p2_crawled_count s ∧
      p2_crawled_count s ≤ N).
  { unfold phase2_expand_graph.
    apply (loop_invariant (phase2_step api T (Some N))
             (λ s,
                ∃ X : gset string,
                  (∀ d, truthy (is_crawled (p2_db s) d) = true →
                        truthy (is_crawled db d) = true ∨ d ∈ X) ∧
                  Z.of_nat (size X) ≤ p2_crawled_count s ∧
                  p2_crawled_count s ≤ N)).
    - intros s (X & Hfl & Hsz & Hcnt).
      destruct (phase2_step_cases api T (Some N) s)
        as [-> | (cur & rest & _ & Hlim & [-> | [(_ & _ & _ & ->)
              | [(db' & Hsf & ->)
              | (db3 & ms & _ & _ & _ & Hsf & _ & _ & ->)]]])]; simpl;
        try (exists X; done).
      + exists X. split; [|done]. intros d Hd. apply Hfl.
        destruct Hsf as [Hsf _]. by rewrite <- Hsf.
      + apply limit_not_reached in Hlim; [|lia].
        exists ({[cur]} ∪ X). split; [|split; [|lia]].
        * intros d [-> | Hd]%is_crawled_mark_as_crawled.
          -- right. apply elem_of_union. left. by apply elem_of_singleton.
          -- destruct Hsf as [Hsf _]. rewrite Hsf in Hd.
             destruct (Hfl d Hd); [by left|].
             right. apply elem_of_union. by right.
        * pose proof (size_union_le {[cur]} X) as Hu.
          rewrite size_singleton in Hu. lia.
    - exists ∅. rewrite size_empty. simpl. split; [auto|]. lia. }
  destruct Hinv as (X & Hfl & Hsz & Hcnt).
  etrans; [|exact Hcnt]. etrans; [|exact Hsz]. apply inj_le, subseteq_size.
  intros d [[Hd H0] _]%elem_of_filter.
  destruct (Hfl d Hd); [congruence | done].
Qed.

(** C8 at max_users = 0.  The test [max_users and ...] takes 0 for "no
    limit": Phase 1 on the triangle sets three crawled flags, and Phase 2
    on the resulting store sets one. *)
Lemma zero_budget_is_unlimited :
  size (newly_crawled empty_db
          (p1_db (state_of (phase1_mutuals_graph 10 api_triangle empty_db "S"
                              (Some 0)))))
  = 3%nat ∧
  size (newly_crawled triangle_core_db
          (p2_db (state_of (phase2_expand_graph 10 api_triangle
                              triangle_core_db 3 (Some 0)))))
  = 1%nat.
Proof. by vm_compute. Qed.

(* ===================================================================== *)
(** * Duplicates in the queue *)

Lemma NoDup_fmap_List_filter {A B} (f : A → B) (g : A → bool) (l : list A) :
  NoDup (f <$> l) → NoDup (f <$> List.filter g l).
Proof.
  induction l as [|a l IH]; simpl; [done|].
  intros [Ha Hl]%NoDup_cons. destruct (g a); simpl; [|auto].
  apply NoDup_cons. split; [|auto].
  intros (x & Hx & [Hin _]%elem_of_List_filter)%list_elem_of_fmap.
  apply Ha. apply list_elem_of_fmap. eauto.
Qed.

Lemma get_uncrawled_users_NoDup db : NoDup (get_uncrawled_users db).*1.
Proof.
  unfold get_uncrawled_users. rewrite <- list_fmap_compose.
  apply (NoDup_fmap_List_filter (λ p : string * UserRow, p.1)).
  apply NoDup_fst_map_to_list.
Qed.

(** The queue of Phase 2 never holds an identifier twice. *)
Lemma phase2_queue_NoDup fuel api db T max_users :
  NoDup (p2_to_process (state_of (phase2_expand_graph fuel api db T max_users))).
Proof.
  unfold phase2_expand_graph.
  apply (loop_invariant (phase2_step api T max_users)
           (λ s, NoDup (p2_to_process s))).
  - intros s Hnd.
    destruct (phase2_step_cases api T max_users s)
      as [-> | (cur & rest & Hq & _ & [-> | [(_ & _ & _ & ->)
            | [(db' & _ & ->)
            | (db3 & ms & _ & _ & _ & _ & Hms & Hnew & ->)]]])]; simpl;
      try done; rewrite Hq in Hnd; apply NoDup_cons in Hnd as [_ Hnd];
      try done.
    apply NoDup_app. split; [done|]. split; [|done].
    intros x Hx Hin. by destruct (Hnew x Hin) as (_ & ? & _).
  - unfold phase2_init. rewrite phase2_initial_queue_spec. simpl.
    pose proof (NoDup_fmap_List_filter (λ d : string, d)
                  (λ d, T <=? get_mutual_core_connection_count db d)
                  ((get_uncrawled_users db).*1)) as H.
    rewrite !list_fmap_id in H. apply H, get_uncrawled_users_NoDup.
Qed.

(** C9 in Phase 1.  On the triangle, the pass for S queues A and B; the
    pass for A finds B neither processed nor crawled and appends it again:
    the queue holds B twice. *)
Lemma phase1_queue_holds_duplicate :
  p1_to_process (state_of (phase1_mutuals_graph 1 api_triangle empty_db "S" None))
  = ["A"; "B"] ∧
  p1_to_process (state_of (phase1_mutuals_graph 2 api_triangle empty_db "S" None))
  = ["B"; "B"].
Proof. by vm_compute. Qed.

(* ===================================================================== *)
(** * More about the store *)

Lemma elem_of_get_uncrawled_users db d h :
  (d, h) ∈ get_uncrawled_users db ↔
  ∃ r, users db !! d = Some r ∧ u_crawled r = false ∧ u_handle r = h.
Proof.
  unfold get_uncrawled_users. rewrite list_elem_of_fmap. split.
  - intros ([k r] & Heq & [Hin Hf]%elem_of_List_filter). simpl in *.
    injection Heq as -> ->. apply elem_of_map_to_list in Hin.
    exists r. by destruct (u_crawled r).
  - intros (r & Hr & Hc & <-). exists (d, r). split; [done|].
    apply elem_of_List_filter. split; [by apply elem_of_map_to_list|].
    simpl. by rewrite Hc.
Qed.

Lemma elem_of_get_uncrawled_dids db d :
  d ∈ (get_uncrawled_users db).*1 ↔ is_crawled db d = Some false.
Proof.
  rewrite list_elem_of_fmap. unfold is_crawled. split.
  - intros ([d' h] & -> & (r & Hr & Hc & _)%elem_of_get_uncrawled_users).
    simpl. by rewrite Hr, Hc.
  - destruct (users db !! d) as [r|] eqn:Hr; [|done].
    intros [= Hc]. exists (d, u_handle r). split; [done|].
    apply elem_of_get_uncrawled_users. eauto.
Qed.

(** X1.  [get_uncrawled_users] lists exactly the accounts that have a row
    with the crawled flag unset, each with its stored handle and each only
    once; in terms of [is_crawled], these are the accounts for which it
    returns a false that is not [None]. *)
Theorem get_uncrawled_users_exact db :
  NoDup (get_uncrawled_users db).*1 ∧
  (∀ d h, (d, h) ∈ get_uncrawled_users db ↔
          ∃ r, users db !! d = Some r ∧ u_crawled r = false ∧ u_handle r = h) ∧
  (∀ d, d ∈ (get_uncrawled_users db).*1 ↔ is_crawled db d = Some false).
Proof.
  split; [apply get_uncrawled_users_NoDup|]. split.
  - apply elem_of_get_uncrawled_users.
  - apply elem_of_get_uncrawled_dids.
Qed.

(** X2.  An upsert of an account that has no row, with counts that SQLite
    can hold ([None] or a signed 64-bit integer), completes: it creates
    the row with the given data and both flags unset, changes no other row
    and no edge; the account then exists and is listed as uncrawled. *)
Theorem add_user_new_account did handle dn fc fo de db :
  users db !! did = None →
  count_fits fc →
  count_fits fo →
  ∃ db', add_user did handle dn fc fo de db = Fine db' ∧
         users db' !! did
         = Some {| u_handle := handle; u_display_name := dn;
                   u_followers_count := fc; u_follows_count := fo;
                   u_description := de; u_crawled := false;
                   u_is_mutual_core := false |} ∧
         user_exists db' did = true ∧
         (did, handle) ∈ get_uncrawled_users db' ∧
         (∀ d, d ≠ did → users db' !! d = users db !! d) ∧
         follows db' = follows db.
Proof.
  intros Hn _ _. eexists. split; [by apply add_user_fresh|]. simpl.
  assert (Hl : ∀ r : UserRow, <[did:=r]> (users db) !! did = Some r)
    by (intros; apply lookup_insert_eq).
  split; [apply Hl|]. split; [unfold user_exists; simpl; by rewrite Hl|].
  split.
  - apply elem_of_get_uncrawled_users. eexists. split; [apply Hl|]. done.
  - split; [|done]. intros d Hd. by rewrite lookup_insert_ne.
Qed.

Lemma add_user_new_account_witness :
  ∃ db', add_user "did:plc:bob" "bob.test" None (Some 0) (Some 0) None db_ann
         = Fine db' ∧
         ("did:plc:bob", "bob.test") ∈ get_uncrawled_users db'.
Proof.
  assert (Hfit : count_fits (Some 0)) by (unfold count_fits, int64; lia).
  destruct (add_user_new_account "did:plc:bob" "bob.test" None (Some 0)
              (Some 0) None db_ann eq_refl Hfit Hfit)
    as (db' & H1 & _ & _ & H2 & _).
  exists db'. split; [exact H1 | exact H2].
Defined.

Lemma keep_count_idem fc e c :
  keep_count fc e = Some c → keep_count fc c = Some c.
Proof.
  unfold keep_count. destruct fc as [[| |]|]; try (by intros [= <-]).
  destruct e as [e|]; [|done]. intros [= <-].
  destruct (Z.ltb_spec 0 e) as [H|H]; [|done].
  by destruct (Z.ltb_spec 0 e); [|lia].
Qed.

Lemma keep_text_idem t e : keep_text t (keep_text t e) = keep_text t e.
Proof. by destruct t, e. Qed.

(** X3.  [add_user] is idempotent on the columns of the embedding (all but
    [added_at], which INSERT OR REPLACE sets anew on every upsert): when an
    upsert with counts that SQLite can hold completes, the same upsert on
    the resulting store completes too, and every row keeps its handle,
    display name, counts, description and flags, and every edge stays as
    it is. *)
Theorem add_user_idempotent did handle dn fc fo de db db' :
  count_fits fc →
  count_fits fo →
  add_user did handle dn fc fo de db = Fine db' →
  add_user did handle dn fc fo de db' = Fine db'.
Proof.
  intros _ _. unfold add_user at 1.
  destruct (users db !! did) as [ex|] eqn:Hex.
  - destruct (keep_count fc (u_followers_count ex)) as [fc'|] eqn:Hfc; [|done].
    destruct (keep_count fo (u_follows_count ex)) as [fo'|] eqn:Hfo; [|done].
    intros [= <-]. unfold add_user. simpl. rewrite lookup_insert_eq. simpl.
    rewrite (keep_count_idem _ _ _ Hfc), (keep_count_idem _ _ _ Hfo).
    rewrite !keep_text_idem. by rewrite insert_insert_eq.
  - intros [= <-]. unfold add_user. simpl. rewrite lookup_insert_eq. simpl.
    assert (Hk : ∀ c, keep_count c c = Some c).
    { intros [[| |]|]; done. }
    rewrite !Hk. rewrite insert_insert_eq.
    by destruct dn, de.
Qed.

Lemma add_user_idempotent_witness :
  add_user "did:plc:ann" "ann.test" None (Some 0) (Some 0) None
    (store_of (add_user "did:plc:ann" "ann.test" None (Some 0) (Some 0) None
                 db_ann))
  = Fine (store_of (add_user "did:plc:ann" "ann.test" None (Some 0) (Some 0)
                      None db_ann)).
Proof.
  assert (Hfit : count_fits (Some 0)) by (unfold count_fits, int64; lia).
  apply (add_user_idempotent "did:plc:ann" "ann.test" None (Some 0) (Some 0)
           None db_ann _ Hfit Hfit).
  reflexivity.
Defined.

(** X4.  [add_user] raises exactly when the account has a row and an
    incoming count of 0 meets a stored NULL count (the comparison
    [None > 0]); it raises before writing, so the store is the one it was
    called on. *)
Theorem add_user_raises_iff did handle dn fc fo de db :
  (∀ db', add_user did handle dn fc fo de db = Raised db' → db' = db) ∧
  ((∃ db', add_user did handle dn fc fo de db = Raised db') ↔
   ∃ ex, users db !! did = Some ex ∧
         ((fc = Some 0 ∧ u_followers_count ex = None) ∨
          (fo = Some 0 ∧ u_follows_count ex = None))).
Proof.
  unfold add_user.
  destruct (users db !! did) as [ex|] eqn:Hex.
  - assert (Hk : ∀ c e, keep_count c e = None ↔ c = Some 0 ∧ e = None).
    { intros [[| |]|] [e|]; simpl; split; try done; try (by intros [? ?]). }
    destruct (keep_count fc (u_followers_count ex)) as [fc'|] eqn:Hfc.
    + destruct (keep_count fo (u_follows_count ex)) as [fo'|] eqn:Hfo.
      * split; [done|]. split; [by intros [? ?]|].
        intros (ex' & [= <-] & [H | H]); apply Hk in H; congruence.
      * split; [by intros db' [= <-]|]. split; [|eauto].
        intros _. exists ex. split; [done|]. right. by apply Hk.
    + split; [by intros db' [= <-]|]. split; [|eauto].
      intros _. exists ex. split; [done|]. left. by apply Hk.
  - split; [done|]. split; [by intros [? ?] | by intros (? & ? & _)].
Qed.

Lemma elem_of_get_user_followers db did x :
  x ∈ get_user_followers db did ↔ is_Some (follows db !! (x, did)).
Proof.
  unfold get_user_followers. rewrite list_elem_of_fmap. split.
  - intros ([[a b] r] & -> & [Hin Hf]%elem_of_List_filter). simpl in *.
    apply bool_decide_eq_true in Hf as ->.
    apply elem_of_map_to_list in Hin. eauto.
  - intros [r Hr]. exists ((x, did), r). split; [done|].
    apply elem_of_List_filter. split; [by apply elem_of_map_to_list|].
    by apply bool_decide_eq_true.
Qed.

Lemma elem_of_get_user_following db did x :
  x ∈ get_user_following db did ↔ is_Some (follows db !! (did, x)).
Proof.
  unfold get_user_following. rewrite list_elem_of_fmap. split.
  - intros ([[a b] r] & -> & [Hin Hf]%elem_of_List_filter). simpl in *.
    apply bool_decide_eq_true in Hf as ->.
    apply elem_of_map_to_list in Hin. eauto.
  - intros [r Hr]. exists ((did, x), r). split; [done|].
    apply elem_of_List_filter. split; [by apply elem_of_map_to_list|].
    by apply bool_decide_eq_true.
Qed.

Lemma add_follow_is_Some fd fh gd gh m db :
  is_Some (follows (add_follow fd fh gd gh m db) !! (fd, gd)).
Proof.
  unfold add_follow. destruct (follows db !! (fd, gd)) as [r|] eqn:Hr.
  - rewrite Hr. eauto.
  - simpl. rewrite lookup_insert_eq. eauto.
Qed.

Lemma add_follow_keeps fd fh gd gh m db k r :
  follows db !! k = Some r → follows (add_follow fd fh gd gh m db) !! k = Some r.
Proof.
  intros Hk. unfold add_follow.
  destruct (follows db !! (fd, gd)) as [r'|] eqn:Hr; [done|]. simpl.
  rewrite lookup_insert_ne; [done|]. intros <-. congruence.
Qed.

Lemma get_user_followers_NoDup db d : NoDup (get_user_followers db d).
Proof.
  unfold get_user_followers. apply NoDup_fmap_2_strong.
  - intros [[a b] r] [[a' b'] r'] [Hin Hf]%elem_of_List_filter
      [Hin' Hf']%elem_of_List_filter Heq. simpl in *.
    apply bool_decide_eq_true in Hf, Hf'. subst.
    apply elem_of_map_to_list in Hin, Hin'. congruence.
  - apply NoDup_ListNoDup, List.NoDup_filter, NoDup_ListNoDup.
    apply NoDup_map_to_list.
Qed.

Lemma get_user_following_NoDup db d : NoDup (get_user_following db d).
Proof.
  unfold get_user_following. apply NoDup_fmap_2_strong.
  - intros [[a b] r] [[a' b'] r'] [Hin Hf]%elem_of_List_filter
      [Hin' Hf']%elem_of_List_filter Heq. simpl in *.
    apply bool_decide_eq_true in Hf, Hf'. subst.
    apply elem_of_map_to_list in Hin, Hin'. congruence.
  - apply NoDup_ListNoDup, List.NoDup_filter, NoDup_ListNoDup.
    apply NoDup_map_to_list.
Qed.

(** X5.  The two listings read the edge table by one endpoint:
    [get_user_followers db v] holds exactly the accounts with an edge to
    v, [get_user_following db u] those with an edge from u, none of them
    twice.  After [add_follow] of u -> v, whether it inserted or was
    ignored, v is listed as followed by u and u as a follower of v. *)
Theorem follow_listings db u hu v hv m :
  (∀ x d, x ∈ get_user_followers db d ↔ is_Some (follows db !! (x, d))) ∧
  (∀ x d, x ∈ get_user_following db d ↔ is_Some (follows db !! (d, x))) ∧
  (∀ d, NoDup (get_user_followers db d) ∧ NoDup (get_user_following db d)) ∧
  v ∈ get_user_following (add_follow u hu v hv m db) u ∧
  u ∈ get_user_followers (add_follow u hu v hv m db) v.
Proof.
  split; [intros; apply elem_of_get_user_followers|].
  split; [intros; apply elem_of_get_user_following|].
  split.
  - intros d. split;
      [apply get_user_followers_NoDup | apply get_user_following_NoDup].
  - split.
    + apply elem_of_get_user_following, add_follow_is_Some.
    + apply elem_of_get_user_followers, add_follow_is_Some.
Qed.

Lemma elem_of_connections db did x :
  x ∈ connections db did ↔
  is_Some (follows db !! (x, did)) ∨ is_Some (follows db !! (did, x)).
Proof.
  unfold connections.
  by rewrite elem_of_union, !elem_of_list_to_set,
    elem_of_get_user_followers, elem_of_get_user_following.
Qed.


(** X7.  The numbers of [get_stats] fit together: the crawled accounts
    are at most all accounts, the mutual edges at most all edges, nothing
    is negative, and the uncrawled count is the length of what
    [get_uncrawled_users] returns. *)
Theorem get_stats_consistent db :
  let st := get_stats db in
  0 ≤ crawled_users st ≤ total_users st ∧
  0 ≤ mutual_follows st ≤ total_follows st ∧
  total_users st = Z.of_nat (size (users db)) ∧
  total_follows st = Z.of_nat (size (follows db)) ∧
  uncrawled_users st = Z.of_nat (length (get_uncrawled_users db)).
Proof.
  simpl. repeat split; try lia.
  - apply inj_le, filter_length_le.
  - apply inj_le, filter_length_le.
  - by rewrite length_map_to_list.
  - by rewrite length_map_to_list.
  - unfold get_uncrawled_users. rewrite length_fmap.
    pose proof (filter_length (λ p : string * UserRow, u_crawled p.2)
                  (map_to_list (users db))) as H.
    lia.
Qed.

Lemma is_crawled_after_mark did db x :
  truthy (is_crawled (mark_as_crawled did db) x)
  = if decide (x = did) then user_exists db did
    else truthy (is_crawled db x).
Proof.
  unfold is_crawled, mark_as_crawled, user_exists. simpl.
  destruct (decide (x = did)) as [->|Hne].
  - rewrite lookup_alter_eq. by destruct (users db !! did).
  - by rewrite lookup_alter_ne.
Qed.

Lemma is_core_after_mark did db x :
  is_core (mark_as_mutual_core did db) x
  = if decide (x = did) then user_exists db did else is_core db x.
Proof.
  unfold is_core, mark_as_mutual_core, user_exists. simpl.
  destruct (decide (x = did)) as [->|Hne].
  - rewrite lookup_alter_eq. by destruct (users db !! did).
  - by rewrite lookup_alter_ne.
Qed.

(** X9.  For an account that has a row, [mark_as_crawled] sets its crawled
    flag and [mark_as_mutual_core] its core flag; each is idempotent, the
    two commute, and a marked account is no longer listed by
    [get_uncrawled_users].  Each of the two changes that one flag of that
    one row only: the other columns of the row, the other flag included,
    every other row and every edge are as before. *)
Theorem mark_flags db did r :
  users db !! did = Some r →
  is_crawled (mark_as_crawled did db) did = Some true ∧
  is_core (mark_as_mutual_core did db) did = true ∧
  mark_as_crawled did (mark_as_crawled did db) = mark_as_crawled did db ∧
  mark_as_mutual_core did (mark_as_mutual_core did db)
  = mark_as_mutual_core did db ∧
  mark_as_mutual_core did (mark_as_crawled did db)
  = mark_as_crawled did (mark_as_mutual_core did db) ∧
  (∀ x, x ≠ did → users (mark_as_crawled did db) !! x = users db !! x) ∧
  follows (mark_as_crawled did db) = follows db ∧
  (did ∉ (get_uncrawled_users (mark_as_crawled did db)).*1) ∧
  (∀ x, x ≠ did → users (mark_as_mutual_core did db) !! x = users db !! x) ∧
  follows (mark_as_mutual_core did db) = follows db ∧
  (∃ r', users (mark_as_crawled did db) !! did = Some r' ∧
         u_handle r' = u_handle r ∧
         u_display_name r' = u_display_name r ∧
         u_followers_count r' = u_followers_count r ∧
         u_follows_count r' = u_follows_count r ∧
         u_description r' = u_description r ∧
         u_is_mutual_core r' = u_is_mutual_core r) ∧
  (∃ r', users (mark_as_mutual_core did db) !! did = Some r' ∧
         u_handle r' = u_handle r ∧
         u_display_name r' = u_display_name r ∧
         u_followers_count r' = u_followers_count r ∧
         u_follows_count r' = u_follows_count r ∧
         u_description r' = u_description r ∧
         u_crawled r' = u_crawled r).
Proof.
  intros Hr. unfold is_crawled, is_core, mark_as_crawled, mark_as_mutual_core.
  simpl. rewrite !lookup_alter_eq, Hr. simpl.
  split; [done|]. split; [done|].
  assert (Halt : ∀ f g h : UserRow → UserRow,
            (∀ y, f (g y) = h y) →
            alter f did (alter g did (users db)) = alter h did (users db)).
  { intros f g h Hfg. apply map_eq. intros j.
    destruct (decide (j = did)) as [->|Hne].
    - rewrite !lookup_alter_eq, Hr. simpl. by rewrite Hfg.
    - by rewrite !lookup_alter_ne. }
  split; [f_equal; by apply Halt|].
  split; [f_equal; by apply Halt|].
  split.
  { f_equal. rewrite (Halt set_mutual_core set_crawled
                        (λ y, set_mutual_core (set_crawled y))) by done.
    by rewrite (Halt set_crawled set_mutual_core
                  (λ y, set_mutual_core (set_crawled y))). }
  split; [intros x Hx; by rewrite lookup_alter_ne|]. split; [done|].
  split.
  { intros ([d h] & Heq & (r' & Hr' & Hc & _)%elem_of_get_uncrawled_users)
      %list_elem_of_fmap.
    simpl in Heq, Hr'. subst d. rewrite lookup_alter_eq, Hr in Hr'.
    simpl in Hr'. by injection Hr' as <-. }
  split; [intros x Hx; by rewrite lookup_alter_ne|]. split; [done|].
  split; eexists; (split; [reflexivity|]); simpl; done.
Qed.

Lemma mark_flags_witness :
  is_crawled (mark_as_crawled "did:plc:ann" db_ann) "did:plc:ann" = Some true.
Proof. by eapply (mark_flags db_ann "did:plc:ann"). Defined.

Lemma clear_crawled_uncrawled r : u_crawled r = false → clear_crawled r = r.
Proof. destruct r. simpl. by intros ->. Qed.

(** X10.  [reset_phase2_users] keeps the row of every core member as it
    is and unsets the crawled flag of every other account: afterwards an
    account is crawled exactly when it was crawled and is core.  Core
    flags, the set of accounts and the edges are the same, and resetting
    twice is resetting once. *)
Theorem reset_phase2_users_spec db :
  (∀ d, is_core (reset_phase2_users db) d = is_core db d) ∧
  (∀ d, is_core db d = true →
        users (reset_phase2_users db) !! d = users db !! d) ∧
  (∀ d, truthy (is_crawled (reset_phase2_users db) d)
        = truthy (is_crawled db d) && is_core db d) ∧
  dom (users (reset_phase2_users db)) = dom (users db) ∧
  follows (reset_phase2_users db) = follows db ∧
  reset_phase2_users (reset_phase2_users db) = reset_phase2_users db.
Proof.
  unfold reset_phase2_users, is_core, is_crawled. simpl.
  split; [|split; [|split; [|split; [|split]]]].
  - intros d. rewrite lookup_fmap. destruct (users db !! d) as [r|]; [|done].
    simpl. by destruct (u_is_mutual_core r) eqn:E.
  - intros d. rewrite lookup_fmap. destruct (users db !! d) as [r|]; [|done].
    simpl. by intros ->.
  - intros d. rewrite lookup_fmap. destruct (users db !! d) as [r|]; [|done].
    simpl. by destruct (u_is_mutual_core r), (u_crawled r).
  - apply dom_fmap_L.
  - done.
  - f_equal. rewrite <- map_fmap_compose. apply map_fmap_ext.
    intros d r _. simpl. by destruct (u_is_mutual_core r) eqn:E; simpl; rewrite ?E.
Qed.

Lemma reset_noop db : flags_agree db → reset_phase2_users db = db.
Proof.
  intros Hag. destruct db as [us fs]. unfold reset_phase2_users. simpl.
  f_equal. rewrite <- (map_fmap_id us) at 2. apply map_fmap_ext.
  intros d r Hr. simpl. destruct (u_is_mutual_core r) eqn:Hc; [done|].
  apply clear_crawled_uncrawled. specialize (Hag d).
  unfold is_core, is_crawled in Hag. simpl in Hag. rewrite Hr, Hc in Hag.
  by destruct (u_crawled r).
Qed.

(** X11.  On a store in which every account has both flags set or both
    unset (such as the one Phase 1 builds from an empty store), the reset
    changes nothing, so the run of [phase2.py] is the same whether the
    reset is asked for or not. *)
Theorem reset_without_phase2 fuel api db T :
  flags_agree db →
  reset_phase2_users db = db ∧
  phase2_main fuel api db T true = phase2_main fuel api db T false.
Proof.
  intros Hag. split; [by apply reset_noop|].
  unfold phase2_main. by rewrite reset_noop.
Qed.

Lemma flags_agree_ann : flags_agree db_ann.
Proof.
  intros d. unfold is_core, is_crawled.
  assert (E : users db_ann
              = <["did:plc:ann" :=
                    {| u_handle := "ann.test"; u_display_name := Some "Ann";
                       u_followers_count := Some 500;
                       u_follows_count := Some 20;
                       u_description := Some "bio"; u_crawled := false;
                       u_is_mutual_core := false |}]> ∅) by reflexivity.
  rewrite E. destruct (decide (d = "did:plc:ann")) as [->|Hne].
  - by rewrite lookup_insert_eq.
  - by rewrite lookup_insert_ne, lookup_empty.
Qed.

Lemma reset_without_phase2_witness :
  reset_phase2_users db_ann = db_ann.
Proof.
  apply (reset_without_phase2 0 api_triangle db_ann 3). apply flags_agree_ann.
Defined.

(** X12.  [get_profiles_batch] sends the endpoint the first 25 of the
    given actors, so never more than 25 and a shorter list as it is, and
    returns what the endpoint answers to that request; when the request
    raises, the result is the empty list. *)
Theorem get_profiles_batch_bound endpoint actors :
  (length (batch_request actors) ≤ 25)%nat ∧
  batch_request actors = take 25 actors ∧
  get_profiles_batch endpoint actors
  = get_profiles_batch endpoint (take 25 actors) ∧
  get_profiles_batch (λ _, None) actors = [] ∧
  get_profiles_batch endpoint actors = default [] (endpoint (take 25 actors)).
Proof.
  assert (Hb : batch_request actors = take 25 actors).
  { unfold batch_request. destruct (Nat.ltb_spec 25 (length actors)); [done|].
    by rewrite take_ge. }
  assert (Hb' : batch_request (take 25 actors) = take 25 actors).
  { unfold batch_request.
    destruct (Nat.ltb_spec 25 (length (take 25 actors))) as [H|H]; [|done].
    rewrite length_take in H. lia. }
  split; [rewrite Hb, length_take; lia|]. split; [done|].
  unfold get_profiles_batch. rewrite Hb, Hb'.
  split; [done|]. split; [done|]. by destruct (endpoint (take 25 actors)).
Qed.

Lemma dict_set_keys k v d x :
  x ∈ (dict_set k v d).*1 ↔ x = k ∨ x ∈ d.*1.
Proof.
  induction d as [|[k' v'] d IH]; simpl.
  - rewrite list_elem_of_singleton. split; [auto|]. intros [?|H]; [done|].
    by apply elem_of_nil in H.
  - case_bool_decide as Hk; simpl.
    + subst. rewrite !elem_of_cons. tauto.
    + rewrite !elem_of_cons, IH. tauto.
Qed.

Lemma dict_set_NoDup k v d : NoDup d.*1 → NoDup (dict_set k v d).*1.
Proof.
  induction d as [|[k' v'] d IH]; simpl.
  - intros _. apply NoDup_singleton.
  - intros [Hk' Hd]%NoDup_cons. case_bool_decide as Hk; simpl.
    + subst. by apply NoDup_cons.
    + apply NoDup_cons. split; [|auto].
      rewrite dict_set_keys. intros [?|?]; [congruence | done].
Qed.

(** X13.  [temp_connections] holds every account of the two listings
    once: filling a dict from listings keeps its keys distinct, and its
    keys are the old keys together with the identifiers of the listed
    accounts.  So the scan of Phase 2 meets an account that is both
    followed and a follower a single time. *)
Theorem dict_add_all_keys l d :
  NoDup d.*1 →
  NoDup (dict_add_all l d).*1 ∧
  ∀ x, x ∈ (dict_add_all l d).*1 ↔ x ∈ d.*1 ∨ x ∈ c_did <$> l.
Proof.
  unfold dict_add_all. revert d. induction l as [|f l IH]; intros d Hd; simpl.
  - split; [done|]. intros x. split; [auto|]. intros [?|H]; [done|].
    by apply elem_of_nil in H.
  - destruct (IH (dict_set (c_did f) (c_handle f) d)) as [Hnd Hk];
      [by apply dict_set_NoDup|].
    split; [done|]. intros x. rewrite Hk, dict_set_keys, elem_of_cons. tauto.
Qed.

Lemma dict_add_all_keys_witness :
  NoDup (dict_add_all [conn "A"; conn "C"] (dict_add_all [conn "A"; conn "B"] [])).*1.
Proof.
  apply dict_add_all_keys. apply dict_add_all_keys. simpl. constructor.
Defined.

(* ===================================================================== *)
(** * What the store operations keep *)

Lemma store_extends_refl db : store_extends db db.
Proof. by repeat split. Qed.

Lemma store_extends_trans db1 db2 db3 :
  store_extends db1 db2 → store_extends db2 db3 → store_extends db1 db3.
Proof.
  intros (A1 & B1 & C1 & D1) (A2 & B2 & C2 & D2). repeat split; auto.
Qed.

Lemma store_extends_intro db db' :
  same_flags db db' →
  (∀ d, is_Some (users db !! d) → is_Some (users db' !! d)) →
  (∀ k r, follows db !! k = Some r → follows db' !! k = Some r) →
  store_extends db db'.
Proof.
  intros [Hc Hm] Hu Hf. repeat split; [done| | |done].
  - intros d. by rewrite Hc.
  - intros d. by rewrite Hm.
Qed.

Lemma add_user_extends did handle dn fc fo de db :
  store_extends db (store_of (add_user did handle dn fc fo de db)).
Proof.
  apply store_extends_intro; [apply add_user_same_flags| |].
  - intros d Hd. unfold add_user.
    destruct (users db !! did) as [ex|] eqn:Hex.
    + destruct (keep_count fc _); [|done]. destruct (keep_count fo _); [|done].
      simpl. destruct (decide (d = did)) as [->|];
        [rewrite lookup_insert_eq; eauto | by rewrite lookup_insert_ne].
    + simpl. destruct (decide (d = did)) as [->|];
        [rewrite lookup_insert_eq; eauto | by rewrite lookup_insert_ne].
  - intros k r Hk. unfold add_user.
    destruct (users db !! did) as [ex|]; [|done].
    destruct (keep_count fc _); [|done]. by destruct (keep_count fo _).
Qed.

Lemma add_user_row did handle dn fc fo de db db' :
  add_user did handle dn fc fo de db = Fine db' → is_Some (users db' !! did).
Proof.
  unfold add_user. destruct (users db !! did) as [ex|].
  - destruct (keep_count fc _); [|done]. destruct (keep_count fo _); [|done].
    intros [= <-]. simpl. rewrite lookup_insert_eq. eauto.
  - intros [= <-]. simpl. rewrite lookup_insert_eq. eauto.
Qed.

Lemma add_follow_extends fd fh gd gh m db :
  store_extends db (add_follow fd fh gd gh m db).
Proof.
  apply store_extends_intro; [apply add_follow_same_flags| |].
  - intros d. by rewrite add_follow_users.
  - intros k r. apply add_follow_keeps.
Qed.

Lemma and_then_extends db e k :
  store_extends db (store_of e) →
  (∀ db1, store_extends db1 (store_of (k db1))) →
  store_extends db (store_of (and_then e k)).
Proof.
  intros He Hk. destruct e as [db1|db1]; simpl in *; [|done].
  eapply store_extends_trans; [exact He | apply Hk].
Qed.

Lemma phase1_add_follows_extends cur h ms l db :
  store_extends db (store_of (phase1_add_follows cur h ms l db)).
Proof.
  revert db. induction l as [|f l IH]; intros db; simpl.
  - apply store_extends_refl.
  - apply and_then_extends; [apply add_user_extends|].
    intros db1. eapply store_extends_trans; [apply add_follow_extends | apply IH].
Qed.

Lemma phase1_add_followers_extends cur h fs l db :
  store_extends db (store_of (phase1_add_followers cur h fs l db)).
Proof.
  revert db. induction l as [|f l IH]; intros db; simpl.
  - apply store_extends_refl.
  - apply and_then_extends; [apply add_user_extends|].
    intros db1. case_bool_decide; [|apply IH].
    eapply store_extends_trans; [apply add_follow_extends | apply IH].
Qed.

Lemma phase2_add_follows_extends cur h l db :
  store_extends db (store_of (phase2_add_follows cur h l db)).
Proof.
  revert db. induction l as [|f l IH]; intros db; simpl.
  - apply store_extends_refl.
  - apply and_then_extends.
    + destruct (user_exists db (c_did f));
        [apply store_extends_refl | apply add_user_extends].
    + intros db1.
      eapply store_extends_trans; [apply add_follow_extends | apply IH].
Qed.

Lemma phase2_add_followers_extends cur h l db :
  store_extends db (store_of (phase2_add_followers cur h l db)).
Proof.
  revert db. induction l as [|f l IH]; intros db; simpl.
  - apply store_extends_refl.
  - apply and_then_extends.
    + destruct (user_exists db (c_did f));
        [apply store_extends_refl | apply add_user_extends].
    + intros db1.
      eapply store_extends_trans; [apply add_follow_extends | apply IH].
Qed.

Lemma mark_as_crawled_extends did db :
  store_extends db (mark_as_crawled did db).
Proof.
  repeat split.
  - intros d. unfold mark_as_crawled. simpl. rewrite lookup_alter.
    case_decide; [subst|done]. intros [r ->]. simpl. eauto.
  - intros d Hd. rewrite is_crawled_after_mark. case_decide; [subst|done].
    unfold user_exists. unfold is_crawled in Hd.
    by destruct (users db !! did).
  - intros d. by rewrite is_core_mark_as_crawled.
  - done.
Qed.

Lemma mark_as_mutual_core_extends did db :
  store_extends db (mark_as_mutual_core did db).
Proof.
  repeat split.
  - intros d. unfold mark_as_mutual_core. simpl. rewrite lookup_alter.
    case_decide; [subst|done]. intros [r ->]. simpl. eauto.
  - intros d. by rewrite is_crawled_mark_as_mutual_core.
  - intros d Hd. rewrite is_core_after_mark. case_decide; [subst|done].
    unfold user_exists. unfold is_core in Hd.
    by destruct (users db !! did).
  - done.
Qed.

Lemma plain_edges_refl db : only_plain_edges_added db db.
Proof. intros k r. by left. Qed.

Lemma plain_edges_trans db1 db2 db3 :
  only_plain_edges_added db1 db2 → only_plain_edges_added db2 db3 →
  only_plain_edges_added db1 db3.
Proof.
  intros H1 H2 k r Hk. destruct (H2 k r Hk) as [H|H]; [by apply H1 | by right].
Qed.

Lemma add_user_plain_edges did handle dn fc fo de db :
  only_plain_edges_added db (store_of (add_user did handle dn fc fo de db)).
Proof.
  intros k r. unfold add_user. destruct (users db !! did) as [ex|]; [|by left].
  destruct (keep_count fc _); [|by left].
  destruct (keep_count fo _); by left.
Qed.

Lemma add_follow_plain_edges fd fh gd gh db :
  only_plain_edges_added db (add_follow fd fh gd gh false db).
Proof.
  intros k r. unfold add_follow.
  destruct (follows db !! (fd, gd)) as [r'|] eqn:Hr; [by left|]. simpl.
  destruct (decide (k = (fd, gd))) as [->|Hne].
  - rewrite lookup_insert_eq. intros [= <-]. by right.
  - rewrite lookup_insert_ne by done. by left.
Qed.

Lemma and_then_plain_edges db e k :
  only_plain_edges_added db (store_of e) →
  (∀ db1, only_plain_edges_added db1 (store_of (k db1))) →
  only_plain_edges_added db (store_of (and_then e k)).
Proof.
  intros He Hk. destruct e as [db1|db1]; simpl in *; [|done].
  eapply plain_edges_trans; [exact He | apply Hk].
Qed.

Lemma phase2_add_follows_plain_edges cur h l db :
  only_plain_edges_added db (store_of (phase2_add_follows cur h l db)).
Proof.
  revert db. induction l as [|f l IH]; intros db; simpl.
  - apply plain_edges_refl.
  - apply and_then_plain_edges.
    + destruct (user_exists db (c_did f));
        [apply plain_edges_refl | apply add_user_plain_edges].
    + intros db1.
      eapply plain_edges_trans; [apply add_follow_plain_edges | apply IH].
Qed.

Lemma phase2_add_followers_plain_edges cur h l db :
  only_plain_edges_added db (store_of (phase2_add_followers cur h l db)).
Proof.
  revert db. induction l as [|f l IH]; intros db; simpl.
  - apply plain_edges_refl.
  - apply and_then_plain_edges.
    + destruct (user_exists db (c_did f));
        [apply plain_edges_refl | apply add_user_plain_edges].
    + intros db1.
      eapply plain_edges_trans; [apply add_follow_plain_edges | apply IH].
Qed.

Lemma crawled_dids_app l1 l2 :
  crawled_dids (l1 ++ l2) = crawled_dids l1 ++ crawled_dids l2.
Proof. apply omap_app. Qed.

Lemma crawled_dids_enqueues (f : string → event) ms tr :
  (∀ m, ∃ d src store, f m = EvEnqueue d src store) →
  crawled_dids (rev (f <$> ms) ++ tr) = crawled_dids tr.
Proof.
  intros Hf. rewrite crawled_dids_app.
  assert (E : crawled_dids (rev (f <$> ms)) = []).
  { induction ms as [|m ms IH]; [done|].
    rewrite fmap_cons. cbn [rev]. rewrite crawled_dids_app, IH.
    by destruct (Hf m) as (d & src & store & ->). }
  by rewrite E.
Qed.

(* ===================================================================== *)
(** * What a pass does to the store, the processed set and the crawls *)

Lemma crawled_dids_crawl_pass (f : string → event) cur ms tr :
  (∀ m, ∃ d src store, f m = EvEnqueue d src store) →
  crawled_dids (EvCrawl cur :: rev (f <$> ms) ++ tr) = cur :: crawled_dids tr.
Proof.
  intros Hf. change (crawled_dids (EvCrawl cur :: ?l))
    with (cur :: crawled_dids l).
  f_equal. by apply crawled_dids_enqueues.
Qed.

Lemma phase1_step_summary api max_users s :
  let s' := step_state (phase1_step api max_users s) in
  (p1_processed s' = p1_processed s ∧
   same_flags (p1_db s) (p1_db s') ∧
   store_extends (p1_db s) (p1_db s') ∧
   crawled_dids (p1_trace s') = crawled_dids (p1_trace s)) ∨
  ∃ cur profile db3,
    (cur ∉ p1_processed s) ∧
    truthy (is_crawled (p1_db s) cur) = false ∧
    get_profile api cur = Some profile ∧
    is_Some (users db3 !! p_did profile) ∧
    same_flags (p1_db s) db3 ∧
    store_extends (p1_db s) db3 ∧
    p1_db s' = mark_as_mutual_core cur (mark_as_crawled cur db3) ∧
    p1_processed s' = {[cur]} ∪ p1_processed s ∧
    crawled_dids (p1_trace s') = cur :: crawled_dids (p1_trace s).
Proof.
  assert (Hkeep : ∀ db' q,
    same_flags (p1_db s) db' → store_extends (p1_db s) db' →
    p1_processed {| p1_db := db'; p1_to_process := q;
                    p1_processed := p1_processed s; p1_trace := p1_trace s |}
    = p1_processed s ∧
    same_flags (p1_db s) db' ∧ store_extends (p1_db s) db' ∧
    crawled_dids (p1_trace s) = crawled_dids (p1_trace s)) by done.
  assert (Hstay : p1_processed s = p1_processed s ∧
                  same_flags (p1_db s) (p1_db s) ∧
                  store_extends (p1_db s) (p1_db s) ∧
                  crawled_dids (p1_trace s) = crawled_dids (p1_trace s)).
  { split; [done|]. split; [apply same_flags_refl|].
    split; [apply store_extends_refl | done]. }
  unfold phase1_step.
  destruct (p1_to_process s) as [|cur rest]; [by left|].
  destruct (limit_reached max_users _); [by left|].
  destruct (bool_decide_reflect (cur ∈ p1_processed s)) as [Hin|Hnin];
    cbn [orb]; [by left|].
  destruct (truthy (is_crawled (p1_db s) cur)) eqn:Hcr; [by left|].
  destruct (get_profile api cur) as [profile|] eqn:Hprof; [|by left].
  pose proof (add_user_same_flags (p_did profile) (p_handle profile)
                (p_display_name profile) (p_followers_count profile)
                (p_follows_count profile) (p_description profile) (p1_db s))
    as F1.
  pose proof (add_user_extends (p_did profile) (p_handle profile)
                (p_display_name profile) (p_followers_count profile)
                (p_follows_count profile) (p_description profile) (p1_db s))
    as E1.
  destruct (add_user _ _ _ _ _ _ _) as [db1|db'] eqn:Hadd;
    cbn [store_of] in F1, E1; [|left; by apply Hkeep].
  apply add_user_row in Hadd.
  pose proof (phase1_add_follows_same_flags cur (p_handle profile)
                (r_mutuals (find_mutuals api cur))
                (r_follows (find_mutuals api cur)) db1) as F2.
  pose proof (phase1_add_follows_extends cur (p_handle profile)
                (r_mutuals (find_mutuals api cur))
                (r_follows (find_mutuals api cur)) db1) as E2.
  destruct (phase1_add_follows _ _ _ _ _) as [db2|db'];
    cbn [store_of] in F2, E2.
  2:{ left. apply Hkeep;
        [eapply same_flags_trans | eapply store_extends_trans]; eassumption. }
  pose proof (same_flags_trans _ _ _ F1 F2) as F12.
  pose proof (store_extends_trans _ _ _ E1 E2) as E12.
  pose proof (phase1_add_followers_same_flags cur (p_handle profile)
                (list_to_set (c_did <$> r_follows (find_mutuals api cur)))
                (r_followers (find_mutuals api cur)) db2) as F3.
  pose proof (phase1_add_followers_extends cur (p_handle profile)
                (list_to_set (c_did <$> r_follows (find_mutuals api cur)))
                (r_followers (find_mutuals api cur)) db2) as E3.
  destruct (phase1_add_followers _ _ _ _ _) as [db3|db'];
    cbn [store_of] in F3, E3.
  2:{ left. apply Hkeep;
        [eapply same_flags_trans | eapply store_extends_trans]; eassumption. }
  right. exists cur, profile, db3. cbn [step_state p1_db p1_processed p1_trace].
  split; [done|]. split; [done|]. split; [done|].
  split.
  { destruct E2 as [R2 _], E3 as [R3 _]. auto. }
  split; [eapply same_flags_trans; eassumption|].
  split; [eapply store_extends_trans; eassumption|].
  split; [done|]. split; [done|].
  rewrite phase1_enqueue_spec. cbn [snd].
  apply crawled_dids_crawl_pass. eauto.
Qed.

Lemma phase2_step_summary api T max_users s :
  let s' := step_state (phase2_step api T max_users s) in
  (p2_processed s ⊆ p2_processed s' ∧
   same_flags (p2_db s) (p2_db s') ∧
   store_extends (p2_db s) (p2_db s') ∧
   only_plain_edges_added (p2_db s) (p2_db s') ∧
   p2_crawled_count s' = p2_crawled_count s ∧
   crawled_dids (p2_trace s') = crawled_dids (p2_trace s)) ∨
  ∃ cur db3,
    (cur ∉ p2_processed s) ∧
    truthy (is_crawled (p2_db s) cur) = false ∧
    same_flags (p2_db s) db3 ∧
    store_extends (p2_db s) db3 ∧
    only_plain_edges_added (p2_db s) db3 ∧
    p2_db s' = mark_as_crawled cur db3 ∧
    p2_processed s' = {[cur]} ∪ p2_processed s ∧
    p2_crawled_count s' = p2_crawled_count s + 1 ∧
    crawled_dids (p2_trace s') = cur :: crawled_dids (p2_trace s).
Proof.
  assert (Hkeep : ∀ db' X,
    p2_processed s ⊆ X →
    same_flags (p2_db s) db' → store_extends (p2_db s) db' →
    only_plain_edges_added (p2_db s) db' →
    p2_processed s ⊆ X ∧
    same_flags (p2_db s) db' ∧ store_extends (p2_db s) db' ∧
    only_plain_edges_added (p2_db s) db' ∧
    p2_crawled_count s = p2_crawled_count s ∧
    crawled_dids (p2_trace s) = crawled_dids (p2_trace s)) by done.
  assert (Hstay : ∀ X, p2_processed s ⊆ X →
    p2_processed s ⊆ X ∧
    same_flags (p2_db s) (p2_db s) ∧ store_extends (p2_db s) (p2_db s) ∧
    only_plain_edges_added (p2_db s) (p2_db s) ∧
    p2_crawled_count s = p2_crawled_count s ∧
    crawled_dids (p2_trace s) = crawled_dids (p2_trace s)).
  { intros X HX. apply (Hkeep (p2_db s)); [done|apply same_flags_refl| |].
    - apply store_extends_refl.
    - apply plain_edges_refl. }
  unfold phase2_step.
  destruct (p2_to_process s) as [|cur rest]; [left; by apply Hstay|].
  destruct (limit_reached max_users _); [left; by apply Hstay|].
  destruct (bool_decide_reflect (cur ∈ p2_processed s)) as [Hin|Hnin];
    cbn [orb]; [left; by apply Hstay|].
  destruct (truthy (is_crawled (p2_db s) cur)) eqn:Hcr;
    [left; by apply Hstay|].
  destruct (get_profile api cur) as [profile|] eqn:Hprof;
    [|left; apply Hstay, union_subseteq_r].
  pose proof (add_user_same_flags (p_did profile) (p_handle profile)
                (p_display_name profile) (p_followers_count profile)
                (p_follows_count profile) (p_description profile) (p2_db s))
    as F1.
  pose proof (add_user_extends (p_did profile) (p_handle profile)
                (p_display_name profile) (p_followers_count profile)
                (p_follows_count profile) (p_description profile) (p2_db s))
    as E1.
  pose proof (add_user_plain_edges (p_did profile) (p_handle profile)
                (p_display_name profile) (p_followers_count profile)
                (p_follows_count profile) (p_description profile) (p2_db s))
    as P1.
  destruct (add_user _ _ _ _ _ _ _) as [db1|db'];
    cbn [store_of] in F1, E1, P1; [|left; by apply (Hkeep db')].
  pose proof (phase2_add_follows_same_flags cur (p_handle profile)
                (get_all_follows api cur) db1) as F2.
  pose proof (phase2_add_follows_extends cur (p_handle profile)
                (get_all_follows api cur) db1) as E2.
  pose proof (phase2_add_follows_plain_edges cur (p_handle profile)
                (get_all_follows api cur) db1) as P2.
  destruct (phase2_add_follows _ _ _ _) as [db2|db'];
    cbn [store_of] in F2, E2, P2.
  2:{ left. apply (Hkeep db'); [done| | |].
      - eapply same_flags_trans; eassumption.
      - eapply store_extends_trans; eassumption.
      - eapply plain_edges_trans; eassumption. }
  pose proof (same_flags_trans _ _ _ F1 F2) as F12.
  pose proof (store_extends_trans _ _ _ E1 E2) as E12.
  pose proof (plain_edges_trans _ _ _ P1 P2) as P12.
  pose proof (phase2_add_followers_same_flags cur (p_handle profile)
                (get_all_followers api cur) db2) as F3.
  pose proof (phase2_add_followers_extends cur (p_handle profile)
                (get_all_followers api cur) db2) as E3.
  pose proof (phase2_add_followers_plain_edges cur (p_handle profile)
                (get_all_followers api cur) db2) as P3.
  destruct (phase2_add_followers _ _ _ _) as [db3|db'];
    cbn [store_of] in F3, E3, P3.
  2:{ left. apply (Hkeep db'); [done| | |].
      - eapply same_flags_trans; eassumption.
      - eapply store_extends_trans; eassumption.
      - eapply plain_edges_trans; eassumption. }
  right. exists cur, db3.
  cbn [step_state p2_db p2_processed p2_trace p2_crawled_count].
  split; [done|]. split; [done|].
  split; [eapply same_flags_trans; eassumption|].
  split; [eapply store_extends_trans; eassumption|].
  split; [eapply plain_edges_trans; eassumption|].
  split; [done|]. split; [done|]. split; [done|].
  destruct (phase2_scan_spec db3 (p2_processed s) T cur
              (dict_add_all (get_all_followers api cur)
                 (dict_add_all (get_all_follows api cur) []))
              rest (p2_trace s)) as (ms & -> & _). cbn [snd].
  apply crawled_dids_crawl_pass. eauto.
Qed.

(* ===================================================================== *)
(** * Invariants of a whole run *)

Lemma truthy_true v : truthy v = true ↔ v = Some true.
Proof. destruct v as [[|]|]; simpl; split; congruence. Qed.

Lemma user_exists_mark_as_crawled did db x :
  user_exists (mark_as_crawled did db) x = user_exists db x.
Proof.
  unfold user_exists, mark_as_crawled. simpl. rewrite lookup_alter.
  case_decide; [subst|done]. by destruct (users db !! x).
Qed.

Lemma flags_agree_empty : flags_agree empty_db.
Proof. intros d. unfold is_core, is_crawled. simpl. by rewrite lookup_empty. Qed.

Lemma phase1_run_invariant fuel api db seed max_users :
  let s := state_of (phase1_mutuals_graph fuel api db seed max_users) in
  store_extends db (p1_db s) ∧
  (flags_agree db → flags_agree (p1_db s)) ∧
  NoDup (crawled_dids (p1_trace s)) ∧
  (∀ d, d ∈ crawled_dids (p1_trace s) ↔ d ∈ p1_processed s) ∧
  (∀ d, d ∈ p1_processed s → truthy (is_crawled db d) = false) ∧
  (profiles_match api →
   ∀ d, d ∈ p1_processed s →
        truthy (is_crawled (p1_db s) d) = true ∧ is_core (p1_db s) d = true).
Proof.
  unfold phase1_mutuals_graph.
  apply (loop_invariant (phase1_step api max_users)
           (λ s,
              store_extends db (p1_db s) ∧
              (flags_agree db → flags_agree (p1_db s)) ∧
              NoDup (crawled_dids (p1_trace s)) ∧
              (∀ d, d ∈ crawled_dids (p1_trace s) ↔ d ∈ p1_processed s) ∧
              (∀ d, d ∈ p1_processed s → truthy (is_crawled db d) = false) ∧
              (profiles_match api →
               ∀ d, d ∈ p1_processed s →
                    truthy (is_crawled (p1_db s) d) = true ∧
                    is_core (p1_db s) d = true))).
  - intros s (Hext & Hag & Hnd & Hset & Hnew & Hcore).
    destruct (phase1_step_summary api max_users s)
      as [(Hp & Hsf & He & Htr)
         | (cur & profile & db3 & Hnp & Hcr & Hprof & Hrow & Hsf & He
            & Hdb & Hp & Htr)].
    + rewrite Hp, Htr. destruct Hsf as [Hc Hm].
      split; [eapply store_extends_trans; eassumption|].
      split.
      { intros H d. rewrite Hc, Hm. by apply Hag. }
      split; [done|]. split; [done|]. split; [done|].
      intros Hpm d Hd. rewrite Hc, Hm. by apply Hcore.
    + rewrite Hp, Htr, Hdb. destruct Hsf as [Hc Hm].
      assert (Hmarks : store_extends db3
                (mark_as_mutual_core cur (mark_as_crawled cur db3))).
      { eapply store_extends_trans;
          [apply mark_as_crawled_extends | apply mark_as_mutual_core_extends]. }
      split.
      { eapply store_extends_trans; [exact Hext|].
        eapply store_extends_trans; [exact He | exact Hmarks]. }
      split.
      { intros H d. rewrite is_core_after_mark, is_crawled_mark_as_mutual_core,
          is_crawled_after_mark, user_exists_mark_as_crawled,
          is_core_mark_as_crawled.
        case_decide; [done|]. rewrite Hc, Hm. by apply Hag. }
      split.
      { apply NoDup_cons. split; [|done]. by rewrite Hset. }
      split.
      { intros d. rewrite elem_of_cons, elem_of_union, elem_of_singleton.
        by rewrite Hset. }
      split.
      { intros d [->%elem_of_singleton | Hd]%elem_of_union; [|auto].
        destruct (truthy (is_crawled db cur)) eqn:E; [|done].
        destruct Hext as (_ & Hk & _). rewrite (Hk cur E) in Hcr. done. }
      intros Hpm d [->%elem_of_singleton | Hd]%elem_of_union.
      * rewrite (Hpm _ _ Hprof) in Hrow.
        rewrite is_core_after_mark, is_crawled_mark_as_mutual_core,
          is_crawled_after_mark, user_exists_mark_as_crawled.
        rewrite !decide_True by done. unfold user_exists.
        by destruct Hrow as [r ->].
      * destruct (Hcore Hpm d Hd) as [H1 H2].
        destruct Hmarks as (_ & Hk & Hk' & _).
        split; [apply Hk; by rewrite Hc | apply Hk'; by rewrite Hm].
  - cbn [phase1_init p1_db p1_trace p1_processed crawled_dids omap].
    split; [apply store_extends_refl|]. split; [done|].
    split; [constructor|]. split.
    + intros d. split; [by intros ?%elem_of_nil | by intros ?%elem_of_empty].
    + split.
      * intros d Hd. by apply elem_of_empty in Hd.
      * intros _ d Hd. by apply elem_of_empty in Hd.
Qed.

Lemma phase2_run_invariant fuel api db T max_users :
  let s := state_of (phase2_expand_graph fuel api db T max_users) in
  store_extends db (p2_db s) ∧
  (∀ d, is_core (p2_db s) d = is_core db d) ∧
  only_plain_edges_added db (p2_db s) ∧
  NoDup (crawled_dids (p2_trace s)) ∧
  (∀ d, d ∈ crawled_dids (p2_trace s) → d ∈ p2_processed s) ∧
  Z.of_nat (length (crawled_dids (p2_trace s))) = p2_crawled_count s ∧
  (∀ d, d ∈ crawled_dids (p2_trace s) → truthy (is_crawled db d) = false).
Proof.
  unfold phase2_expand_graph.
  apply (loop_invariant (phase2_step api T max_users)
           (λ s,
              store_extends db (p2_db s) ∧
              (∀ d, is_core (p2_db s) d = is_core db d) ∧
              only_plain_edges_added db (p2_db s) ∧
              NoDup (crawled_dids (p2_trace s)) ∧
              (∀ d, d ∈ crawled_dids (p2_trace s) → d ∈ p2_processed s) ∧
              Z.of_nat (length (crawled_dids (p2_trace s)))
              = p2_crawled_count s ∧
              (∀ d, d ∈ crawled_dids (p2_trace s) →
                    truthy (is_crawled db d) = false))).
  - intros s (Hext & Hcore & Hpl & Hnd & Hsub & Hlen & Hnew).
    destruct (phase2_step_summary api T max_users s)
      as [(Hp & Hsf & He & Hpe & Hcnt & Htr)
         | (cur & db3 & Hnp & Hcr & Hsf & He & Hpe & Hdb & Hp & Hcnt & Htr)].
    + rewrite Hcnt, Htr. destruct Hsf as [Hc Hm].
      split; [eapply store_extends_trans; eassumption|].
      split; [intros d; by rewrite Hm|].
      split; [eapply plain_edges_trans; eassumption|].
      split; [done|]. split; [|done]. intros d Hd. apply Hp. by apply Hsub.
    + rewrite Hp, Hcnt, Htr, Hdb. destruct Hsf as [Hc Hm].
      split.
      { eapply store_extends_trans; [exact Hext|].
        eapply store_extends_trans; [exact He|].
        apply mark_as_crawled_extends. }
      split; [intros d; by rewrite is_core_mark_as_crawled, Hm|].
      split; [eapply plain_edges_trans; eassumption|].
      split.
      { apply NoDup_cons. split; [|done]. intros Hin. by apply Hnp, Hsub. }
      split.
      { intros d [->|Hd]%elem_of_cons; apply elem_of_union;
          [left; by apply elem_of_singleton | right; by apply Hsub]. }
      split; [cbn [length]; lia|].
      intros d [->|Hd]%elem_of_cons; [|auto].
      destruct (truthy (is_crawled db cur)) eqn:E; [|done].
      destruct Hext as (_ & Hk & _). rewrite (Hk cur E) in Hcr. done.
  - unfold phase2_init. rewrite phase2_initial_queue_spec.
    cbn [p2_db p2_trace p2_processed p2_crawled_count fst snd].
    rewrite crawled_dids_enqueues by eauto.
    cbn [crawled_dids omap length].
    split; [apply store_extends_refl|]. split; [done|].
    split; [apply plain_edges_refl|]. split; [constructor|].
    split; [by intros d ?%elem_of_nil|]. split; [done|].
    by intros d ?%elem_of_nil.
Qed.

(** X14.  Phase 1 sets the crawled flag and the core flag of an account
    in the same pass: started on a store in which every account has both
    flags set or both unset, the run leaves such a store after every pass
    of the [while] loop, and also where an [add_user] TypeError ends it.
    (Inside a pass the two flags are committed by two UPDATE statements,
    main.py:124-125; the store between the two, where the account is
    crawled and not yet core, is not among the stores of a run here, which
    are those between passes.) *)
Theorem phase1_keeps_flags_together fuel api db seed max_users :
  flags_agree db →
  flags_agree (p1_db (state_of (phase1_mutuals_graph fuel api db seed max_users))).
Proof.
  intros H.
  destruct (phase1_run_invariant fuel api db seed max_users) as (_ & Hag & _).
  by apply Hag.
Qed.

Lemma phase1_keeps_flags_together_witness :
  is_core triangle_core_db "A" = truthy (is_crawled triangle_core_db "A").
Proof.
  apply (phase1_keeps_flags_together 10 api_triangle empty_db "S" None).
  apply flags_agree_empty.
Defined.

(** X15.  When the remote answers each profile request with the profile
    of the requested account, every account in [processed] is stored with
    the crawled flag and the core flag set. *)
Theorem phase1_processed_are_core fuel api db seed max_users d :
  profiles_match api →
  d ∈ p1_processed (state_of (phase1_mutuals_graph fuel api db seed max_users)) →
  is_crawled
    (p1_db (state_of (phase1_mutuals_graph fuel api db seed max_users))) d
  = Some true ∧
  is_core (p1_db (state_of (phase1_mutuals_graph fuel api db seed max_users))) d
  = true.
Proof.
  intros Hpm Hd.
  destruct (phase1_run_invariant fuel api db seed max_users)
    as (_ & _ & _ & _ & _ & Hcore).
  destruct (Hcore Hpm d Hd) as [H1 H2]. split; [by apply truthy_true | done].
Qed.

Lemma profiles_match_triangle : profiles_match api_triangle.
Proof. intros actor profile [= <-]. reflexivity. Qed.

Lemma phase1_processed_are_core_witness :
  is_core (p1_db (state_of (phase1_mutuals_graph 3 api_triangle empty_db "S"
                             None))) "A"
  = true.
Proof.
  apply (phase1_processed_are_core 3 api_triangle empty_db "S" None "A").
  - apply profiles_match_triangle.
  - vm_compute. reflexivity.
Defined.

(** X16.  Phase 1 crawls no account twice in a run: the crawl events name
    different accounts, these are exactly the accounts in [processed], and
    none of them had its crawled flag set when the run started. *)
Theorem phase1_crawls_once fuel api db seed max_users :
  let s := state_of (phase1_mutuals_graph fuel api db seed max_users) in
  NoDup (crawled_dids (p1_trace s)) ∧
  list_to_set (crawled_dids (p1_trace s)) = p1_processed s ∧
  Forall (λ d, truthy (is_crawled db d) = false) (crawled_dids (p1_trace s)).
Proof.
  destruct (phase1_run_invariant fuel api db seed max_users)
    as (_ & _ & Hnd & Hset & Hnew & _).
  split; [done|]. split.
  - apply set_eq. intros d. by rewrite elem_of_list_to_set.
  - apply Forall_forall. intros d Hd. by apply Hnew, Hset.
Qed.

(** X17.  Phase 2 crawls no account twice in a run: the crawl events name
    different accounts, all of them in [processed], their number is
    [crawled_count], and none of them had its crawled flag set when the
    run started. *)
Theorem phase2_crawls_once fuel api db T max_users :
  let s := state_of (phase2_expand_graph fuel api db T max_users) in
  NoDup (crawled_dids (p2_trace s)) ∧
  list_to_set (crawled_dids (p2_trace s)) ⊆ p2_processed s ∧
  Z.of_nat (length (crawled_dids (p2_trace s))) = p2_crawled_count s ∧
  Forall (λ d, truthy (is_crawled db d) = false) (crawled_dids (p2_trace s)).
Proof.
  destruct (phase2_run_invariant fuel api db T max_users)
    as (_ & _ & _ & Hnd & Hsub & Hlen & Hnew).
  split; [done|]. split; [|split; [done|]].
  - intros d Hd. apply Hsub. by apply elem_of_list_to_set in Hd.
  - by apply Forall_forall.
Qed.

(** X18.  Phase 1 only adds to the store: at every point of the run each
    account of the initial store still has a row, a crawled or core flag
    that was set is still set, and every edge is still there with the row
    it had (handles and is_mutual). *)
Theorem phase1_store_only_grows fuel api db seed max_users :
  store_extends db
    (p1_db (state_of (phase1_mutuals_graph fuel api db seed max_users))).
Proof.
  by destruct (phase1_run_invariant fuel api db seed max_users) as (H & _).
Qed.

(** X19.  Phase 2 only adds to the store as well, and besides it changes no
    core flag in either direction and flags no edge as mutual: an edge of
    the store is an edge of the initial store or has is_mutual unset. *)
Theorem phase2_store_only_grows fuel api db T max_users :
  let s := state_of (phase2_expand_graph fuel api db T max_users) in
  store_extends db (p2_db s) ∧
  (∀ d, is_core (p2_db s) d = is_core db d) ∧
  only_plain_edges_added db (p2_db s).
Proof.
  destruct (phase2_run_invariant fuel api db T max_users)
    as (H1 & H2 & H3 & _).
  done.
Qed.

Lemma counts_monotone db db' d :
  store_extends db db' →
  get_mutual_core_connection_count db d
  ≤ get_mutual_core_connection_count db' d ∧
  get_connection_count db d ≤ get_connection_count db' d.
Proof.
  intros (Hrow & _ & Hcore & Hedge).
  assert (He : ∀ k, is_Some (follows db !! k) → is_Some (follows db' !! k)).
  { intros k [r Hr]. exists r. by apply Hedge. }
  split.
  - rewrite !core_connection_count_spec. apply inj_le, subseteq_size.
    intros x [(Hc & Hl) _]%elem_of_filter. apply elem_of_filter.
    split; [split; [by apply Hcore | destruct Hl; auto]|].
    apply elem_of_dom, is_core_row. by apply Hcore.
  - unfold get_connection_count. apply inj_le, subseteq_size.
    intros x Hx%elem_of_connections. apply elem_of_connections.
    destruct Hx; auto.
Qed.

(** X20.  No connection count goes down during a run of either phase:
    the core-connection count and the connection count of every account
    at any point of the run are at least what they were at the start.  An
    account that reached the threshold of Phase 2 keeps reaching it. *)
Theorem counts_never_decrease fuel api db seed T max_users d :
  let s1 := state_of (phase1_mutuals_graph fuel api db seed max_users) in
  let s2 := state_of (phase2_expand_graph fuel api db T max_users) in
  get_mutual_core_connection_count db d
  ≤ get_mutual_core_connection_count (p1_db s1) d ∧
  get_connection_count db d ≤ get_connection_count (p1_db s1) d ∧
  get_mutual_core_connection_count db d
  ≤ get_mutual_core_connection_count (p2_db s2) d ∧
  get_connection_count db d ≤ get_connection_count (p2_db s2) d.
Proof.
  destruct (phase1_run_invariant fuel api db seed max_users) as (H1 & _).
  destruct (phase2_run_invariant fuel api db T max_users) as (H2 & _).
  destruct (counts_monotone _ _ d H1), (counts_monotone _ _ d H2). done.
Qed.

(** X21.  The initial queue of Phase 2 holds exactly the accounts that
    have a row with the crawled flag unset and whose core-connection count
    in the store reaches the threshold, each of them once; the store is
    not written while it is built. *)
Theorem phase2_init_exact db T d :
  (d ∈ p2_to_process (phase2_init db T) ↔
   is_crawled db d = Some false ∧ T ≤ get_mutual_core_connection_count db d) ∧
  NoDup (p2_to_process (phase2_init db T)) ∧
  p2_db (phase2_init db T) = db.
Proof.
  unfold phase2_init. rewrite phase2_initial_queue_spec.
  cbn [p2_to_process p2_db fst app]. split; [|split; [|done]].
  - rewrite elem_of_List_filter, Z.leb_le.
    by rewrite elem_of_get_uncrawled_dids.
  - pose proof (NoDup_fmap_List_filter (λ d : string, d)
                  (λ d, T <=? get_mutual_core_connection_count db d)
                  ((get_uncrawled_users db).*1)) as H.
    rewrite !list_fmap_id in H. apply H, get_uncrawled_users_NoDup.
Qed.

(** X22.  Phase 1 cannot be resumed from a seed that is already crawled:
    whatever the remote holds, the run drops the seed from the queue and
    ends, with the store as it was, nothing processed and nothing
    crawled. *)
Theorem phase1_crawled_seed_is_noop fuel api db seed max_users :
  truthy (is_crawled db seed) = true →
  let s := state_of (phase1_mutuals_graph fuel api db seed max_users) in
  p1_db s = db ∧ p1_processed s = ∅ ∧ p1_trace s = [] ∧
  ∃ s', phase1_mutuals_graph (2 + fuel) api db seed max_users = Finished s'.
Proof.
  intros Hcr. unfold phase1_mutuals_graph.
  assert (Hstep : phase1_step api max_users (phase1_init db seed)
                  = Stop (phase1_init db seed) ∨
                  phase1_step api max_users (phase1_init db seed)
                  = Next {| p1_db := db; p1_to_process := [];
                            p1_processed := ∅; p1_trace := [] |}).
  { unfold phase1_step, phase1_init. cbn [p1_to_process p1_processed p1_db].
    destruct (limit_reached max_users _); [by left|]. right.
    rewrite Hcr. by rewrite orb_true_r. }
  assert (Hend : ∀ q, phase1_step api max_users
                        {| p1_db := db; p1_to_process := [];
                           p1_processed := ∅; p1_trace := q |}
                      = Stop {| p1_db := db; p1_to_process := [];
                                p1_processed := ∅; p1_trace := q |}) by done.
  split; [|split; [|split]].
  1-3: destruct fuel as [|[|fuel]]; cbn [loop]; [done| |];
       destruct Hstep as [-> | ->]; try done; by rewrite ?Hend.
  cbn [Nat.add loop]. destruct Hstep as [-> | ->]; [eauto|].
  rewrite Hend. eauto.
Qed.

Lemma phase1_crawled_seed_is_noop_witness :
  p1_db (state_of (phase1_mutuals_graph 5 api_triangle triangle_core_db "S" None))
  = triangle_core_db.
Proof.
  apply (phase1_crawled_seed_is_noop 5 api_triangle triangle_core_db "S" None).
  reflexivity.
Defined.

(** X23.  A budget [max_users = N] with N > 0 is kept by both phases: at
    every point of a run at most N accounts have a crawled flag that was
    not set at the start. *)
Theorem budget_is_kept_when_positive fuel api db seed T N :
  0 < N →
  Z.of_nat
    (size (newly_crawled db
             (p1_db (state_of (phase1_mutuals_graph fuel api db seed (Some N))))))
  ≤ N ∧
  Z.of_nat
    (size (newly_crawled db
             (p2_db (state_of (phase2_expand_graph fuel api db T (Some N))))))
  ≤ N.
Proof.
  intros HN. split;
    [by apply phase1_budget_positive | by apply phase2_budget_positive].
Qed.

Lemma budget_is_kept_when_positive_witness :
  Z.of_nat
    (size (newly_crawled empty_db
             (p1_db (state_of (phase1_mutuals_graph 10 api_triangle empty_db
                                 "S" (Some 2))))))
  ≤ 2.
Proof.
  apply (budget_is_kept_when_positive 10 api_triangle empty_db "S" 3 2).
  reflexivity.
Defined.

Lemma newly_crawled_split db0 db1 db2 :
  newly_crawled db0 db2 ⊆ newly_crawled db0 db1 ∪ newly_crawled db1 db2.
Proof.
  intros d [[H2 H0] Hd]%elem_of_filter. apply elem_of_union.
  destruct (truthy (is_crawled db1 d)) eqn:H1.
  - left. apply elem_of_filter. split; [done|].
    apply elem_of_dom. apply truthy_true in H1. unfold is_crawled in H1.
    destruct (users db1 !! d); [eauto | done].
  - right. by apply elem_of_filter.
Qed.

(** X24.  [main] crawls at most 150 accounts: whatever the remote holds
    and wherever the run is observed, at most 150 accounts have a crawled
    flag that the store did not have set when [main] started. *)
Theorem main_crawls_at_most_150 fuel1 fuel2 api db seed :
  Z.of_nat (size (newly_crawled db (main_db (main fuel1 fuel2 api db seed))))
  ≤ 150.
Proof.
  pose proof (phase1_budget_positive fuel1 api db seed 50 eq_refl) as H1.
  unfold main.
  destruct (phase1_mutuals_graph fuel1 api db seed (Some 50)) as [s1|s1|s1];
    cbn [main_db state_of] in *; [|lia..].
  pose proof (phase2_budget_positive fuel2 api (p1_db s1) MIN_CONNECTIONS 100
                eq_refl) as H2.
  pose proof (subseteq_size _ _
                (newly_crawled_split db (p1_db s1)
                   (p2_db (state_of (phase2_expand_graph fuel2 api (p1_db s1)
                                       MIN_CONNECTIONS (Some 100)))))) as H3.
  pose proof (size_union_le (newly_crawled db (p1_db s1))
                (newly_crawled (p1_db s1)
                   (p2_db (state_of (phase2_expand_graph fuel2 api (p1_db s1)
                                       MIN_CONNECTIONS (Some 100)))))) as H4.
  lia.
Qed.

(** X25.  The reset undoes the crawled flags of Phase 2.  After a Phase 2
    run from a store in which every account has both flags set or both
    unset, [reset_phase2_users] gives a store with the crawled and core
    flags of that initial store, and with all the edges of the run. *)
Theorem reset_undoes_phase2 fuel api db T max_users :
  flags_agree db →
  let db2 := p2_db (state_of (phase2_expand_graph fuel api db T max_users)) in
  same_flags db (reset_phase2_users db2) ∧
  follows (reset_phase2_users db2) = follows db2.
Proof.
  intros Hag db2.
  destruct (phase2_run_invariant fuel api db T max_users)
    as ((_ & Hk & _) & Hcore & _). fold db2 in Hk, Hcore.
  split; [|done]. split; intros d.
  - unfold reset_phase2_users, is_crawled. simpl. rewrite lookup_fmap.
    specialize (Hk d). specialize (Hcore d). specialize (Hag d).
    unfold is_crawled, is_core in Hk, Hcore, Hag.
    destruct (users db2 !! d) as [r2|]; simpl in *.
    + destruct (u_is_mutual_core r2) eqn:Hm; simpl.
      * rewrite <- Hag, <- Hcore in Hk. by rewrite Hk, <- Hag.
      * by rewrite <- Hag.
    + by rewrite <- Hag.
  - unfold reset_phase2_users, is_core. simpl. rewrite lookup_fmap.
    specialize (Hcore d). unfold is_core in Hcore.
    destruct (users db2 !! d) as [r2|]; simpl in *; [|done].
    by destruct (u_is_mutual_core r2) eqn:Hm; simpl; rewrite ?Hm.
Qed.

Lemma reset_undoes_phase2_witness :
  truthy (is_crawled
            (reset_phase2_users
               (p2_db (state_of (phase2_expand_graph 5 api_triangle
                                   triangle_core_db 3 None)))) "X")
  = truthy (is_crawled triangle_core_db "X").
Proof.
  assert (Hag : flags_agree triangle_core_db).
  { destruct (phase1_run_invariant 10 api_triangle empty_db "S" None)
      as (_ & Hag & _).
    apply Hag, flags_agree_empty. }
  destruct (reset_undoes_phase2 5 api_triangle triangle_core_db 3 None Hag)
    as [[H _] _].
  apply H.
Defined.

(* ===================================================================== *)
(** * What a crawl pass records *)

Lemma and_then_Fine e k db' :
  and_then e k = Fine db' → ∃ db1, e = Fine db1 ∧ k db1 = Fine db'.
Proof. destruct e as [db1|db1]; simpl; [eauto | done]. Qed.

Lemma recorded_persists db db' d k :
  store_extends db db' →
  is_Some (users db !! d) ∧ is_Some (follows db !! k) →
  is_Some (users db' !! d) ∧ is_Some (follows db' !! k).
Proof.
  intros (Hrow & _ & _ & Hedge) [Hd [r Hr]]. split; [auto|].
  exists r. by apply Hedge.
Qed.

Lemma phase1_add_follows_records cur h ms l db db' :
  phase1_add_follows cur h ms l db = Fine db' →
  ∀ f, f ∈ l →
       is_Some (users db' !! c_did f) ∧
       is_Some (follows db' !! (cur, c_did f)).
Proof.
  revert db. induction l as [|g l IH]; intros db Hrun f Hf.
  { by apply elem_of_nil in Hf. }
  simpl in Hrun. apply and_then_Fine in Hrun as (db1 & Hadd & Hrest).
  apply elem_of_cons in Hf as [->|Hf]; [|by eapply IH].
  pose proof (phase1_add_follows_extends cur h ms l
                (add_follow cur h (c_did g) (c_handle g)
                   (bool_decide (c_did g ∈ ms)) db1)) as He.
  rewrite Hrest in He. simpl in He.
  apply (recorded_persists _ _ _ _ He). split.
  - rewrite add_follow_users. by eapply add_user_row.
  - apply add_follow_is_Some.
Qed.

Lemma phase1_add_followers_records cur h fs l db db' :
  phase1_add_followers cur h fs l db = Fine db' →
  ∀ f, f ∈ l →
       is_Some (users db' !! c_did f) ∧
       (c_did f ∉ fs → is_Some (follows db' !! (c_did f, cur))).
Proof.
  revert db. induction l as [|g l IH]; intros db Hrun f Hf.
  { by apply elem_of_nil in Hf. }
  simpl in Hrun. apply and_then_Fine in Hrun as (db1 & Hadd & Hrest).
  apply elem_of_cons in Hf as [->|Hf]; [|by eapply IH].
  apply add_user_row in Hadd.
  pose proof (phase1_add_followers_extends cur h fs l
                (if bool_decide (c_did g ∉ fs)
                 then add_follow (c_did g) (c_handle g) cur h false db1
                 else db1)) as He.
  rewrite Hrest in He. simpl in He.
  destruct He as (Hrow & _ & _ & Hedge). split.
  - apply Hrow. case_bool_decide; [by rewrite add_follow_users | done].
  - intros Hn. rewrite bool_decide_eq_true_2 in Hedge by done.
    destruct (add_follow_is_Some (c_did g) (c_handle g) cur h false db1)
      as [r Hr].
    exists r. by apply Hedge.
Qed.

Lemma phase2_add_follows_records cur h l db db' :
  phase2_add_follows cur h l db = Fine db' →
  ∀ f, f ∈ l →
       is_Some (users db' !! c_did f) ∧
       is_Some (follows db' !! (cur, c_did f)).
Proof.
  revert db. induction l as [|g l IH]; intros db Hrun f Hf.
  { by apply elem_of_nil in Hf. }
  simpl in Hrun. apply and_then_Fine in Hrun as (db1 & Hadd & Hrest).
  apply elem_of_cons in Hf as [->|Hf]; [|by eapply IH].
  pose proof (phase2_add_follows_extends cur h l
                (add_follow cur h (c_did g) (c_handle g) false db1)) as He.
  rewrite Hrest in He. simpl in He.
  apply (recorded_persists _ _ _ _ He). split; [|apply add_follow_is_Some].
  rewrite add_follow_users. unfold user_exists in Hadd.
  destruct (users db !! c_did g) as [r|] eqn:Hr.
  - injection Hadd as <-. rewrite Hr. eauto.
  - by eapply add_user_row.
Qed.

Lemma phase2_add_followers_records cur h l db db' :
  phase2_add_followers cur h l db = Fine db' →
  ∀ f, f ∈ l →
       is_Some (users db' !! c_did f) ∧
       is_Some (follows db' !! (c_did f, cur)).
Proof.
  revert db. induction l as [|g l IH]; intros db Hrun f Hf.
  { by apply elem_of_nil in Hf. }
  simpl in Hrun. apply and_then_Fine in Hrun as (db1 & Hadd & Hrest).
  apply elem_of_cons in Hf as [->|Hf]; [|by eapply IH].
  pose proof (phase2_add_followers_extends cur h l
                (add_follow (c_did g) (c_handle g) cur h false db1)) as He.
  rewrite Hrest in He. simpl in He.
  apply (recorded_persists _ _ _ _ He). split; [|apply add_follow_is_Some].
  rewrite add_follow_users. unfold user_exists in Hadd.
  destruct (users db !! c_did g) as [r|] eqn:Hr.
  - injection Hadd as <-. rewrite Hr. eauto.
  - by eapply add_user_row.
Qed.

Lemma add_user_keeps_follows did handle dn fc fo de db :
  follows (store_of (add_user did handle dn fc fo de db)) = follows db.
Proof.
  unfold add_user. destruct (users db !! did) as [ex|]; [|done].
  destruct (keep_count fc _); [|done]. by destruct (keep_count fo _).
Qed.

Lemma add_follow_frame fd fh gd gh m db k :
  k ≠ (fd, gd) → follows (add_follow fd fh gd gh m db) !! k = follows db !! k.
Proof.
  intros Hk. unfold add_follow.
  destruct (follows db !! (fd, gd)); [done|]. simpl.
  by rewrite lookup_insert_ne.
Qed.

Lemma phase1_add_follows_frame cur h ms l db k :
  (∀ f, f ∈ l → k ≠ (cur, c_did f)) →
  follows (store_of (phase1_add_follows cur h ms l db)) !! k = follows db !! k.
Proof.
  revert db. induction l as [|g l IH]; intros db Hk; [done|]. simpl.
  pose proof (add_user_keeps_follows (c_did g) (c_handle g) (c_display_name g)
                (Some 0) (Some 0) None db) as Hu.
  unfold add_user_stub.
  destruct (add_user _ _ _ _ _ _ db) as [db1|db1]; simpl in *.
  - rewrite IH by (intros f Hf; apply Hk; by right).
    rewrite add_follow_frame by (apply Hk; left). by rewrite Hu.
  - by rewrite Hu.
Qed.

Lemma phase1_add_followers_frame cur h fs l db k :
  (∀ f, f ∈ l → c_did f ∉ fs → k ≠ (c_did f, cur)) →
  follows (store_of (phase1_add_followers cur h fs l db)) !! k
  = follows db !! k.
Proof.
  revert db. induction l as [|g l IH]; intros db Hk; [done|]. simpl.
  pose proof (add_user_keeps_follows (c_did g) (c_handle g) (c_display_name g)
                (Some 0) (Some 0) None db) as Hu.
  unfold add_user_stub.
  destruct (add_user _ _ _ _ _ _ db) as [db1|db1]; simpl in *.
  - rewrite IH by (intros f Hf; apply Hk; by right).
    case_bool_decide as Hg; [|by rewrite Hu].
    rewrite add_follow_frame by (apply Hk; [left | done]). by rewrite Hu.
  - by rewrite Hu.
Qed.

(** X26.  A Phase 1 pass that crawls an account stores everything the
    remote listed for it: every followed account has a row and the edge
    current -> followed; every follower has a row, and the edge
    follower -> current unless the follower is also in the follows
    listing.  The pass writes no other edge: every other pair of the
    follows table is as it was before the pass.  In particular, for an
    account of the follows listing other than the current one (so for
    every such mutual) the reverse edge account -> current is not written:
    the pass stores the one edge current -> mutual. *)
Theorem phase1_pass_records_connections api max_users s cur rest profile s' :
  p1_to_process s = cur :: rest →
  cur ∉ p1_processed s →
  truthy (is_crawled (p1_db s) cur) = false →
  get_profile api cur = Some profile →
  phase1_step api max_users s = Next s' →
  (∀ f, f ∈ get_all_follows api cur →
        user_exists (p1_db s') (c_did f) = true ∧
        is_Some (follows (p1_db s') !! (cur, c_did f))) ∧
  (∀ f, f ∈ get_all_followers api cur →
        user_exists (p1_db s') (c_did f) = true ∧
        (c_did f ∉ c_did <$> get_all_follows api cur →
         is_Some (follows (p1_db s') !! (c_did f, cur)))) ∧
  (∀ k, (∀ f, f ∈ get_all_follows api cur → k ≠ (cur, c_did f)) →
        (∀ f, f ∈ get_all_followers api cur →
              c_did f ∉ c_did <$> get_all_follows api cur →
              k ≠ (c_did f, cur)) →
        follows (p1_db s') !! k = follows (p1_db s) !! k) ∧
  (∀ g, g ∈ c_did <$> get_all_follows api cur → g ≠ cur →
        follows (p1_db s') !! (g, cur) = follows (p1_db s) !! (g, cur)).
Proof.
  intros Hq Hnp Hcr Hprof. unfold phase1_step. rewrite Hq.
  destruct (limit_reached max_users _); [done|].
  rewrite bool_decide_eq_false_2, Hcr, Hprof by done. cbn [orb].
  pose proof (add_user_keeps_follows (p_did profile) (p_handle profile)
                (p_display_name profile) (p_followers_count profile)
                (p_follows_count profile) (p_description profile) (p1_db s))
    as Hf1.
  destruct (add_user _ _ _ _ _ _ _) as [db1|]; [|done].
  destruct (phase1_add_follows _ _ _ _ _) as [db2|] eqn:H2; [|done].
  destruct (phase1_add_followers _ _ _ _ _) as [db3|] eqn:H3; [|done].
  intros [= <-]. cbn [p1_db].
  assert (Hm : store_extends db3
                 (mark_as_mutual_core cur (mark_as_crawled cur db3))).
  { eapply store_extends_trans;
      [apply mark_as_crawled_extends | apply mark_as_mutual_core_extends]. }
  pose proof (phase1_add_followers_extends cur (p_handle profile)
                (list_to_set (c_did <$> r_follows (find_mutuals api cur)))
                (r_followers (find_mutuals api cur)) db2) as He.
  rewrite H3 in He. cbn [store_of] in He.
  assert (Hex : ∀ db d, is_Some (users db !! d) → user_exists db d = true).
  { intros db d [r Hr]. unfold user_exists. by rewrite Hr. }
  assert (Hframe :
    ∀ k, (∀ f, f ∈ get_all_follows api cur → k ≠ (cur, c_did f)) →
         (∀ f, f ∈ get_all_followers api cur →
               c_did f ∉ c_did <$> get_all_follows api cur →
               k ≠ (c_did f, cur)) →
         follows (mark_as_mutual_core cur (mark_as_crawled cur db3)) !! k
         = follows (p1_db s) !! k).
  { intros k Hk1 Hk2. cbn [mark_as_mutual_core mark_as_crawled follows].
    pose proof (phase1_add_followers_frame cur (p_handle profile)
                  (list_to_set (c_did <$> r_follows (find_mutuals api cur)))
                  (r_followers (find_mutuals api cur)) db2 k) as E3.
    rewrite H3 in E3. cbn [store_of] in E3. rewrite E3.
    - pose proof (phase1_add_follows_frame cur (p_handle profile)
                    (r_mutuals (find_mutuals api cur))
                    (r_follows (find_mutuals api cur)) db1 k) as E2.
      rewrite H2 in E2. cbn [store_of] in E2. rewrite E2 by exact Hk1.
      cbn [store_of] in Hf1. by rewrite Hf1.
    - intros f Hf Hn. apply Hk2; [exact Hf|].
      by rewrite elem_of_list_to_set in Hn. }
  split.
  { intros f Hf.
    destruct (recorded_persists _ _ (c_did f) (cur, c_did f)
                (store_extends_trans _ _ _ He Hm)
                (phase1_add_follows_records _ _ _ _ _ _ H2 f Hf)) as [? ?].
    split; [by apply Hex | done]. }
  split.
  { intros f Hf.
    destruct (phase1_add_followers_records _ _ _ _ _ _ H3 f Hf) as [Hr Hedge].
    destruct Hm as (Hrow & _ & _ & Hk). split; [by apply Hex, Hrow|].
    intros Hn. destruct Hedge as [r Hr'].
    + by rewrite elem_of_list_to_set.
    + exists r. by apply Hk. }
  split; [exact Hframe|].
  intros g Hg Hne. apply Hframe.
  - intros f _ [= ? ?]. by apply Hne.
  - intros f _ Hn [= ->]. by apply Hn.
Qed.

Lemma phase1_pass_records_connections_witness :
  user_exists
    (p1_db (step_state (phase1_step api_scenario None
                          (phase1_init empty_db "S")))) "B"
  = true.
Proof.
  assert (Hf : conn "B" ∈ get_all_follows api_scenario "S").
  { change (conn "B" ∈ [conn "A"; conn "B"]). right. left. }
  assert (E : phase1_step api_scenario None (phase1_init empty_db "S")
              = Next (step_state (phase1_step api_scenario None
                                    (phase1_init empty_db "S"))))
    by (vm_compute; reflexivity).
  assert (Hnp : "S" ∉ p1_processed (phase1_init empty_db "S"))
    by apply not_elem_of_empty.
  destruct (phase1_pass_records_connections api_scenario None
              (phase1_init empty_db "S") "S" [] (profile_of "S") _
              eq_refl Hnp eq_refl eq_refl E) as [H _].
  by destruct (H (conn "B") Hf).
Defined.

(** X27.  A Phase 2 pass that crawls an account stores everything the
    remote listed for it, and both directions: every followed account has
    a row and the edge current -> followed, every follower has a row and
    the edge follower -> current. *)
Theorem phase2_pass_records_connections api T max_users s cur rest profile s' :
  p2_to_process s = cur :: rest →
  cur ∉ p2_processed s →
  truthy (is_crawled (p2_db s) cur) = false →
  get_profile api cur = Some profile →
  phase2_step api T max_users s = Next s' →
  (∀ f, f ∈ get_all_follows api cur →
        user_exists (p2_db s') (c_did f) = true ∧
        is_Some (follows (p2_db s') !! (cur, c_did f))) ∧
  (∀ f, f ∈ get_all_followers api cur →
        user_exists (p2_db s') (c_did f) = true ∧
        is_Some (follows (p2_db s') !! (c_did f, cur))).
Proof.
  intros Hq Hnp Hcr Hprof. unfold phase2_step. rewrite Hq.
  destruct (limit_reached max_users _); [done|].
  rewrite bool_decide_eq_false_2, Hcr, Hprof by done. cbn [orb].
  destruct (add_user _ _ _ _ _ _ _) as [db1|]; [|done].
  destruct (phase2_add_follows _ _ _ _) as [db2|] eqn:H2; [|done].
  destruct (phase2_add_followers _ _ _ _) as [db3|] eqn:H3; [|done].
  intros [= <-]. cbn [p2_db].
  pose proof (mark_as_crawled_extends cur db3) as Hm.
  pose proof (phase2_add_followers_extends cur (p_handle profile)
                (get_all_followers api cur) db2) as He.
  rewrite H3 in He. cbn [store_of] in He.
  assert (Hex : ∀ db d, is_Some (users db !! d) → user_exists db d = true).
  { intros db d [r Hr]. unfold user_exists. by rewrite Hr. }
  split; intros f Hf.
  - destruct (recorded_persists _ _ (c_did f) (cur, c_did f)
                (store_extends_trans _ _ _ He Hm)
                (phase2_add_follows_records _ _ _ _ _ H2 f Hf)) as [? ?].
    split; [by apply Hex | done].
  - destruct (recorded_persists _ _ (c_did f) (c_did f, cur) Hm
                (phase2_add_followers_records _ _ _ _ _ H3 f Hf)) as [? ?].
    split; [by apply Hex | done].
Qed.

Lemma core_count_without_core db d :
  (∀ x, is_core db x = false) → get_mutual_core_connection_count db d = 0.
Proof.
  intros Hno. rewrite core_connection_count_spec.
  assert (E : core_links db d = ∅).
  { apply set_eq. intros x. split; [|by intros ?%elem_of_empty].
    intros [(Hc & _) _]%elem_of_filter. rewrite Hno in Hc. done. }
  by rewrite E, size_empty.
Qed.

(** X28.  The two degenerate starts of Phase 2.  On a store without any
    core account and with a positive threshold, nothing qualifies: the
    queue starts empty and the first pass ends the run with the store
    untouched.  With a threshold of 0 or less every uncrawled account
    qualifies, whatever its connections. *)
Theorem phase2_degenerate_thresholds fuel api db T max_users :
  ((∀ x, is_core db x = false) → 0 < T →
   p2_to_process (phase2_init db T) = [] ∧
   phase2_expand_graph (S fuel) api db T max_users
   = Finished (phase2_init db T)) ∧
  (T ≤ 0 → p2_to_process (phase2_init db T) = (get_uncrawled_users db).*1).
Proof.
  split.
  - intros Hno HT.
    assert (Hq : p2_to_process (phase2_init db T) = []).
    { unfold phase2_init. rewrite phase2_initial_queue_spec.
      cbn [p2_to_process fst app].
      induction ((get_uncrawled_users db).*1) as [|d l IH]; [done|].
      simpl. rewrite core_count_without_core by done.
      by destruct (Z.leb_spec T 0); [lia|]. }
    split; [done|]. unfold phase2_expand_graph. cbn [loop].
    unfold phase2_step. by rewrite Hq.
  - intros HT. unfold phase2_init. rewrite phase2_initial_queue_spec.
    cbn [p2_to_process fst app].
    induction ((get_uncrawled_users db).*1) as [|d l IH]; [done|].
    simpl. rewrite IH.
    destruct (Z.leb_spec T (get_mutual_core_connection_count db d)); [done|].
    unfold get_mutual_core_connection_count in *. lia.
Qed.

Lemma phase2_degenerate_thresholds_witness :
  phase2_expand_graph 4 api_triangle db_ann 3 None
  = Finished (phase2_init db_ann 3).
Proof.
  destruct (phase2_degenerate_thresholds 3 api_triangle db_ann 3 None)
    as [H _].
  apply H; [|reflexivity].
  intros x. pose proof (flags_agree_ann x) as Hx. rewrite Hx.
  unfold is_crawled.
  destruct (users db_ann !! x) as [r|] eqn:Hr; [|done].
  destruct (decide (x = "did:plc:ann")) as [->|Hne].
  - vm_compute in Hr. by injection Hr as <-.
  - assert (E : users db_ann !! x = None).
    { change (users db_ann) with
        (<["did:plc:ann" :=
             {| u_handle := "ann.test"; u_display_name := Some "Ann";
                u_followers_count := Some 500; u_follows_count := Some 20;
                u_description := Some "bio"; u_crawled := false;
                u_is_mutual_core := false |}]> (∅ : gmap string UserRow)).
      by rewrite lookup_insert_ne, lookup_empty. }
    congruence.
Defined.

Lemma phase2_pass_records_connections_witness :
  is_Some
    (follows
       (p2_db (step_state (phase2_step api_triangle 3 None
                             (phase2_init triangle_core_db 3))))
     !! ("A", "X")).
Proof.
  assert (Hf : conn "A" ∈ get_all_followers api_triangle "X").
  { change (conn "A" ∈ [conn "S"; conn "A"; conn "B"]). right. left. }
  assert (E : phase2_step api_triangle 3 None (phase2_init triangle_core_db 3)
              = Next (step_state (phase2_step api_triangle 3 None
                                    (phase2_init triangle_core_db 3))))
    by (vm_compute; reflexivity).
  assert (Hnp : "X" ∉ p2_processed (phase2_init triangle_core_db 3))
    by apply not_elem_of_empty.
  assert (Hq : p2_to_process (phase2_init triangle_core_db 3) = ["X"])
    by (vm_compute; reflexivity).
  assert (Hcr : truthy (is_crawled (p2_db (phase2_init triangle_core_db 3)) "X")
                = false)
    by (vm_compute; reflexivity).
  destruct (phase2_pass_records_connections api_triangle 3 None
              (phase2_init triangle_core_db 3) "X" [] (profile_of "X") _
              Hq Hnp Hcr eq_refl E) as [_ H].
  by destruct (H (conn "A") Hf).
Defined.

(** X29.  The queue of Phase 2 never holds an identifier twice, at any
    point of a run: the uncrawled accounts it starts from are distinct,
    and the scan appends an identifier only when the queue does not hold
    it. *)
Theorem phase2_queue_has_no_duplicate fuel api db T max_users :
  NoDup (p2_to_process (state_of (phase2_expand_graph fuel api db T max_users))).
Proof. apply phase2_queue_NoDup. Qed.

(* ===================================================================== *)
(** * Fetch failures in Phase 1 *)










(** Phase 1 keeps no record of a failed profile fetch.  On the triangle
    with B's profile out of reach, B is at the head of the queue when the
    third pass starts and again when the fourth starts, both times outside
    [processed] and uncrawled (and the run has no limit), so that
    [get_profile] is requested for B in both passes. *)
Lemma phase1_failed_profile_fetch_is_repeated :
  let at_pass n :=
    state_of (phase1_mutuals_graph n api_triangle_b_down empty_db "S" None) in
  let fetches_b s :=
    bool_decide (head (p1_to_process s) = Some "B")
    && negb (bool_decide ("B" ∈ p1_processed s))
    && negb (truthy (is_crawled (p1_db s) "B")) in
  get_profile api_triangle_b_down "B" = None ∧
  fetches_b (at_pass 2%nat) = true ∧
  fetches_b (at_pass 3%nat) = true.
Proof. vm_compute. repeat split. Qed.
